(** * Elliot: session lifecycle and playback scheduling of the voice client

    A shallow embedding of the [App] component (the React component that
    owns the microphone, the two audio contexts, the live channel and the
    playback timeline) and of the handlers it registers.

    Conventions of the embedding.

    - A JavaScript [number] holding a time, a duration, a volume or a sum
      of bins is an exact rational ([Q]); the rounding of binary64 is not
      modelled.  Identifiers handed out by the platform are [positive].
    - A [useRef] cell of type [T | null] is a field of type [option T];
      a [useState] cell is a field holding its latest value.
    - A handler is a computation in the monad [M]: it threads the
      component state and either returns or throws a JavaScript error.
    - Every observable call a handler makes (a state setter, a console
      line, an operation on a device, a node or the channel) is appended
      to the field [effects], oldest first.
    - An [async] function is cut at each [await]: the code up to the
      [await] is one computation, the code after it is another one that
      takes the settled value of the awaited promise as an argument.
      Other handlers may run in between.
    - What the outside world decides (whether a constructor throws, what a
      promise settles to, what the device clock reads, what the analyser
      measures) is an argument of the handler that asks for it. *)

From Stdlib Require Import Bool List String ZArith QArith Qminmax Lia Lqa.
From Stdlib.Strings Require Import Byte.
From Stdlib Require Import Sorted.
Import ListNotations.

Local Open Scope string_scope.
Local Open Scope list_scope.
Local Open Scope Q_scope.

(** ** Values of the platform *)

(** A thrown value, read through its [message] property only
    ([err.message] may be absent). *)
Record JsError : Type := mkError { message : option string }.

Definition Error (msg : string) : JsError := mkError (Some msg).

(** [new AudioContext({ sampleRate })]. *)
Record AudioContext : Type := mkAudioContext {
  ctx_id : positive;
  ctx_sampleRate : Z
}.

(** The stream of [getUserMedia]; [getTracks()] lists its tracks. *)
Record MediaStream : Type := mkMediaStream {
  stream_id : positive;
  getTracks : list positive
}.

(** The object the promise of [ai.live.connect] resolves to.  Its
    [close()] either returns or throws [e] ([session_close = Some e]). *)
Record Session : Type := mkSession {
  session_id : positive;
  session_close : option JsError
}.

(** A decoded segment; the scheduler reads [audioBuffer.duration] only. *)
Record AudioBuffer : Type := mkAudioBuffer { duration : Q }.

(** [LiveServerMessage], as far as [onmessage] looks into it. *)
Record InlineData : Type := mkInlineData { data : option string }.
Record Part : Type := mkPart { inlineData : option InlineData }.
Record Content : Type := mkContent { parts : option (list Part) }.
Record ServerContent : Type := mkServerContent {
  modelTurn : option Content;
  turnComplete : option bool
}.
Record LiveServerMessage : Type := mkMessage {
  serverContent : option ServerContent
}.

(** What a settled promise or a fallible call produced. *)
Inductive Settled (A : Type) : Type :=
| Resolved (a : A)
| Rejected (e : JsError).
Arguments Resolved {A} a.
Arguments Rejected {A} e.

(** ** Observable calls *)

Inductive Effect : Type :=
| ConsoleLog (msg : string)
| ConsoleWarn (msg : string) (e : JsError)
| ConsoleError (msg : string) (e : JsError)
| SetIsConnected (b : bool)
| SetError (e : option string)
| SetVolume (v : Q)
| SetIsAiSpeaking (b : bool)
| SessionClose (s : positive)
| TrackStop (t : positive)
| NodeDisconnect (n : positive)
| ContextClose (c : positive)
| CancelAnimationFrame (h : positive)
| RequestAnimationFrame (h : positive)
| NewAudioContext (c : positive) (rate : Z)
| GetUserMedia
| CreateNode (c n : positive)
| NodeConnect (src dst : positive)
| LiveConnect (model voice : string)
| SetOnAudioProcess (n : positive)
| SendText (txt : string)
| SendMedia (s : positive)
| SourceStart (c src : positive) (startTime dur : Q)
| SetOnEnded (src : positive).

(** ** The component *)

Record App : Type := mkApp {
  (* useState *)
  isConnected : bool;
  error : option string;
  volume : Q;
  isAiSpeaking : bool;
  (* useRef *)
  inputAudioContextRef : option AudioContext;
  outputAudioContextRef : option AudioContext;
  inputMediaStreamRef : option MediaStream;
  inputSourceRef : option positive;
  processorRef : option positive;
  analyserRef : option positive;
  nextStartTimeRef : Q;
  aiSessionRef : option Session;
  (* a handle of requestAnimationFrame is a non-zero integer, so the test
     [if (animationFrameRef.current)] is a test for null *)
  animationFrameRef : option positive;
  (* the calls made so far, and the next identifier the platform hands out *)
  effects : list Effect;
  nextId : positive
}.

(** The component as first rendered. *)
Definition initial : App :=
  mkApp false None 0 false None None None None None None 0 None None [] 1%positive.

Definition with_isConnected (v : bool) (s : App) : App :=
  mkApp v (error s) (volume s) (isAiSpeaking s)
    (inputAudioContextRef s) (outputAudioContextRef s) (inputMediaStreamRef s)
    (inputSourceRef s) (processorRef s) (analyserRef s) (nextStartTimeRef s)
    (aiSessionRef s) (animationFrameRef s) (effects s) (nextId s).

Definition with_error (v : option string) (s : App) : App :=
  mkApp (isConnected s) v (volume s) (isAiSpeaking s)
    (inputAudioContextRef s) (outputAudioContextRef s) (inputMediaStreamRef s)
    (inputSourceRef s) (processorRef s) (analyserRef s) (nextStartTimeRef s)
    (aiSessionRef s) (animationFrameRef s) (effects s) (nextId s).

Definition with_volume (v : Q) (s : App) : App :=
  mkApp (isConnected s) (error s) v (isAiSpeaking s)
    (inputAudioContextRef s) (outputAudioContextRef s) (inputMediaStreamRef s)
    (inputSourceRef s) (processorRef s) (analyserRef s) (nextStartTimeRef s)
    (aiSessionRef s) (animationFrameRef s) (effects s) (nextId s).

Definition with_isAiSpeaking (v : bool) (s : App) : App :=
  mkApp (isConnected s) (error s) (volume s) v
    (inputAudioContextRef s) (outputAudioContextRef s) (inputMediaStreamRef s)
    (inputSourceRef s) (processorRef s) (analyserRef s) (nextStartTimeRef s)
    (aiSessionRef s) (animationFrameRef s) (effects s) (nextId s).

Definition with_inputAudioContextRef (v : option AudioContext) (s : App) : App :=
  mkApp (isConnected s) (error s) (volume s) (isAiSpeaking s)
    v (outputAudioContextRef s) (inputMediaStreamRef s)
    (inputSourceRef s) (processorRef s) (analyserRef s) (nextStartTimeRef s)
    (aiSessionRef s) (animationFrameRef s) (effects s) (nextId s).

Definition with_outputAudioContextRef (v : option AudioContext) (s : App) : App :=
  mkApp (isConnected s) (error s) (volume s) (isAiSpeaking s)
    (inputAudioContextRef s) v (inputMediaStreamRef s)
    (inputSourceRef s) (processorRef s) (analyserRef s) (nextStartTimeRef s)
    (aiSessionRef s) (animationFrameRef s) (effects s) (nextId s).

Definition with_inputMediaStreamRef (v : option MediaStream) (s : App) : App :=
  mkApp (isConnected s) (error s) (volume s) (isAiSpeaking s)
    (inputAudioContextRef s) (outputAudioContextRef s) v
    (inputSourceRef s) (processorRef s) (analyserRef s) (nextStartTimeRef s)
    (aiSessionRef s) (animationFrameRef s) (effects s) (nextId s).

Definition with_inputSourceRef (v : option positive) (s : App) : App :=
  mkApp (isConnected s) (error s) (volume s) (isAiSpeaking s)
    (inputAudioContextRef s) (outputAudioContextRef s) (inputMediaStreamRef s)
    v (processorRef s) (analyserRef s) (nextStartTimeRef s)
    (aiSessionRef s) (animationFrameRef s) (effects s) (nextId s).

Definition with_processorRef (v : option positive) (s : App) : App :=
  mkApp (isConnected s) (error s) (volume s) (isAiSpeaking s)
    (inputAudioContextRef s) (outputAudioContextRef s) (inputMediaStreamRef s)
    (inputSourceRef s) v (analyserRef s) (nextStartTimeRef s)
    (aiSessionRef s) (animationFrameRef s) (effects s) (nextId s).

Definition with_analyserRef (v : option positive) (s : App) : App :=
  mkApp (isConnected s) (error s) (volume s) (isAiSpeaking s)
    (inputAudioContextRef s) (outputAudioContextRef s) (inputMediaStreamRef s)
    (inputSourceRef s) (processorRef s) v (nextStartTimeRef s)
    (aiSessionRef s) (animationFrameRef s) (effects s) (nextId s).

Definition with_nextStartTimeRef (v : Q) (s : App) : App :=
  mkApp (isConnected s) (error s) (volume s) (isAiSpeaking s)
    (inputAudioContextRef s) (outputAudioContextRef s) (inputMediaStreamRef s)
    (inputSourceRef s) (processorRef s) (analyserRef s) v
    (aiSessionRef s) (animationFrameRef s) (effects s) (nextId s).

Definition with_aiSessionRef (v : option Session) (s : App) : App :=
  mkApp (isConnected s) (error s) (volume s) (isAiSpeaking s)
    (inputAudioContextRef s) (outputAudioContextRef s) (inputMediaStreamRef s)
    (inputSourceRef s) (processorRef s) (analyserRef s) (nextStartTimeRef s)
    v (animationFrameRef s) (effects s) (nextId s).

Definition with_animationFrameRef (v : option positive) (s : App) : App :=
  mkApp (isConnected s) (error s) (volume s) (isAiSpeaking s)
    (inputAudioContextRef s) (outputAudioContextRef s) (inputMediaStreamRef s)
    (inputSourceRef s) (processorRef s) (analyserRef s) (nextStartTimeRef s)
    (aiSessionRef s) v (effects s) (nextId s).

Definition with_effects (v : list Effect) (s : App) : App :=
  mkApp (isConnected s) (error s) (volume s) (isAiSpeaking s)
    (inputAudioContextRef s) (outputAudioContextRef s) (inputMediaStreamRef s)
    (inputSourceRef s) (processorRef s) (analyserRef s) (nextStartTimeRef s)
    (aiSessionRef s) (animationFrameRef s) v (nextId s).

Definition with_nextId (v : positive) (s : App) : App :=
  mkApp (isConnected s) (error s) (volume s) (isAiSpeaking s)
    (inputAudioContextRef s) (outputAudioContextRef s) (inputMediaStreamRef s)
    (inputSourceRef s) (processorRef s) (analyserRef s) (nextStartTimeRef s)
    (aiSessionRef s) (animationFrameRef s) (effects s) v.

(** ** The monad of handlers: state and JavaScript exceptions *)

Inductive Outcome (A : Type) : Type :=
| Returned (a : A) (s : App)
| Thrown (e : JsError) (s : App).
Arguments Returned {A} a s.
Arguments Thrown {A} e s.

Definition M (A : Type) : Type := App -> Outcome A.

Definition ret {A} (a : A) : M A := fun s => Returned a s.

Definition bind {A B} (m : M A) (k : A -> M B) : M B :=
  fun s => match m s with
           | Returned a s' => k a s'
           | Thrown e s' => Thrown e s'
           end.

Definition throw {A} (e : JsError) : M A := fun s => Thrown e s.

(** [try { body } catch (e) { handler e }]. *)
Definition try_catch {A} (body : M A) (handler : JsError -> M A) : M A :=
  fun s => match body s with
           | Returned a s' => Returned a s'
           | Thrown e s' => handler e s'
           end.

Declare Scope js_scope.
Delimit Scope js_scope with js.
Notation "x <- m ;; k" := (bind m (fun x => k))
  (at level 61, m at next level, right associativity) : js_scope.
Notation "m ;; k" := (bind m (fun _ => k))
  (at level 61, right associativity) : js_scope.
Local Open Scope js_scope.

(** The state a handler leaves behind, however it ended. *)
Definition final {A} (o : Outcome A) : App :=
  match o with
  | Returned _ s => s
  | Thrown _ s => s
  end.

Definition get {A} (field : App -> A) : M A := fun s => Returned (field s) s.
Definition modify (f : App -> App) : M unit := fun s => Returned tt (f s).

(** One observable call. *)
Definition emit (e : Effect) : M unit :=
  modify (fun s => with_effects (effects s ++ [e]) s).

(** A fresh identifier for an object the platform creates. *)
Definition fresh : M positive :=
  fun s => Returned (nextId s) (with_nextId (Pos.succ (nextId s)) s).

(** A call that throws when the world says so. *)
Definition attempt (failure : option JsError) : M unit :=
  match failure with
  | Some e => throw e
  | None => ret tt
  end.

(** [await p], once [p] has settled. *)
Definition await {A} (p : Settled A) : M A :=
  match p with
  | Resolved a => ret a
  | Rejected e => throw e
  end.

(** [if (x) { ... }] on a nullable reference. *)
Definition when_some {A} (o : option A) (body : A -> M unit) : M unit :=
  match o with
  | Some a => body a
  | None => ret tt
  end.

(** [xs.forEach(f)]. *)
Fixpoint forEach {A} (xs : list A) (f : A -> M unit) : M unit :=
  match xs with
  | [] => ret tt
  | x :: xs' => f x ;; forEach xs' f
  end.

(** Truthiness of a [string | undefined]. *)
Definition truthy (o : option string) : bool :=
  match o with
  | Some "" => false
  | Some _ => true
  | None => false
  end.

(** [a || b] on strings. *)
Definition or_else (o : option string) (dflt : string) : string :=
  match o with
  | Some "" => dflt
  | Some m => m
  | None => dflt
  end.

(** State setters and console. *)
Definition setIsConnected (b : bool) : M unit :=
  modify (with_isConnected b) ;; emit (SetIsConnected b).
Definition setError (e : option string) : M unit :=
  modify (with_error e) ;; emit (SetError e).
Definition setVolume (v : Q) : M unit :=
  modify (with_volume v) ;; emit (SetVolume v).
Definition setIsAiSpeaking (b : bool) : M unit :=
  modify (with_isAiSpeaking b) ;; emit (SetIsAiSpeaking b).

(** [session.close()]. *)
Definition close (session : Session) : M unit :=
  emit (SessionClose (session_id session)) ;;
  attempt (session_close session).

(** ** Cleanup: [stopSession] *)

Definition stopSession : M unit :=
  (* 1. Close Gemini Session *)
  session <- get aiSessionRef ;;
  when_some session (fun session =>
    try_catch (close session)
              (fun e => emit (ConsoleWarn "Error closing session" e)) ;;
    modify (with_aiSessionRef None)) ;;
  (* 2. Stop Microphone & Input Audio *)
  stream <- get inputMediaStreamRef ;;
  when_some stream (fun stream =>
    forEach (getTracks stream) (fun track => emit (TrackStop track)) ;;
    modify (with_inputMediaStreamRef None)) ;;
  processor <- get processorRef ;;
  when_some processor (fun processor =>
    emit (NodeDisconnect processor) ;;
    modify (with_processorRef None)) ;;
  source <- get inputSourceRef ;;
  when_some source (fun source =>
    emit (NodeDisconnect source) ;;
    modify (with_inputSourceRef None)) ;;
  inputCtx <- get inputAudioContextRef ;;
  when_some inputCtx (fun inputCtx =>
    emit (ContextClose (ctx_id inputCtx)) ;;
    modify (with_inputAudioContextRef None)) ;;
  (* 3. Stop Output Audio *)
  outputCtx <- get outputAudioContextRef ;;
  when_some outputCtx (fun outputCtx =>
    emit (ContextClose (ctx_id outputCtx)) ;;
    modify (with_outputAudioContextRef None)) ;;
  (* 4. Stop Animation Frame *)
  frame <- get animationFrameRef ;;
  when_some frame (fun frame =>
    emit (CancelAnimationFrame frame) ;;
    modify (with_animationFrameRef None)) ;;
  setIsConnected false ;;
  setIsAiSpeaking false ;;
  setVolume 0 ;;
  modify (with_nextStartTimeRef 0).

(** ** Session start: [startSession]

    [startSession] is one [try] block with two [await]s in it, closed by
    one [catch].  The three stretches of the block are three computations;
    each runs under the same handler. *)

Definition MODEL_NAME : string := "gemini-2.5-flash-native-audio-preview-09-2025".

(** [new AudioContext({ sampleRate: rate })]; [failure] is the error the
    constructor throws, if it throws. *)
Definition newAudioContext (failure : option JsError) (rate : Z) : M AudioContext :=
  attempt failure ;;
  c <- fresh ;;
  emit (NewAudioContext c rate) ;;
  ret (mkAudioContext c rate).

(** A method call on a reference that may be null. *)
Definition deref {A} (o : option A) (method : string) : M A :=
  match o with
  | Some a => ret a
  | None => throw (Error ("Cannot read properties of null (reading '" ++ method ++ "')")%string)
  end.

(** [ctx.createMediaStreamSource], [ctx.createAnalyser],
    [ctx.createScriptProcessor], [ctx.createBufferSource]. *)
Definition createNode (ctx : AudioContext) : M positive :=
  n <- fresh ;;
  emit (CreateNode (ctx_id ctx) n) ;;
  ret n.

(** The meter: one run of [updateVolume] on the bins the analyser wrote
    into [dataArray], a [Uint8Array].  (On an empty array JavaScript
    divides 0 by 0; the properties below take at least one bin, and the
    analyser, with [fftSize = 256], has 128.) *)
Definition bin (b : byte) : Q := inject_Z (Z.of_N (Byte.to_N b)).

Definition updateVolume (dataArray : list byte) : M unit :=
  analyser <- get analyserRef ;;
  when_some analyser (fun _ =>
    (* Calculate average volume *)
    let sum := fold_left (fun sum b => sum + bin b) dataArray 0 in
    let average := sum / inject_Z (Z.of_nat (List.length dataArray)) in
    (* Normalize to 0-1 range (roughly) *)
    setVolume (Qmin (average / 100) 1)) ;;
  frame <- fresh ;;
  emit (RequestAnimationFrame frame) ;;
  modify (with_animationFrameRef (Some frame)).

Section Component.

(** [process.env.API_KEY] and the constant [PCM_SAMPLE_RATE] of
    [./utils/audioUtils]. *)
Variable API_KEY : option string.
Variable PCM_SAMPLE_RATE : Z.

(** [catch (err) { ... }] of [startSession]. *)
Definition catch_start (err : JsError) : M unit :=
  emit (ConsoleError "Initialization Error:" err) ;;
  setError (Some (or_else (message err) "Failed to initialize.")) ;;
  stopSession.

(** From the top of the [try] block to [await getUserMedia]; [ctorIn] and
    [ctorOut] say whether the two constructors throw. *)
Definition try_contexts (ctorIn ctorOut : option JsError) : M unit :=
  (if truthy API_KEY then ret tt else throw (Error "API Key is missing.")) ;;
  (* Initialize Audio Contexts *)
  inputCtx <- newAudioContext ctorIn PCM_SAMPLE_RATE ;;
  modify (with_inputAudioContextRef (Some inputCtx)) ;;
  outputCtx <- newAudioContext ctorOut 24000 ;;
  modify (with_outputAudioContextRef (Some outputCtx)) ;;
  (* User Media *)
  emit GetUserMedia.

(** From the settled [getUserMedia] to [await sessionPromise]; returns the
    local [processor] the rest of the block uses.  [graph] is the error
    building the input chain throws, if it throws. *)
Definition try_stream (settled : Settled MediaStream) (graph : option JsError)
  : M positive :=
  stream <- await settled ;;
  modify (with_inputMediaStreamRef (Some stream)) ;;
  (* Setup Input Chain (Mic -> Analyser -> Processor -> Gemini) *)
  inputCtx <- get inputAudioContextRef ;;
  inputCtx <- deref inputCtx "createMediaStreamSource" ;;
  attempt graph ;;
  source <- createNode inputCtx ;;
  modify (with_inputSourceRef (Some source)) ;;
  analyser <- createNode inputCtx ;;
  modify (with_analyserRef (Some analyser)) ;;
  processor <- createNode inputCtx ;;
  modify (with_processorRef (Some processor)) ;;
  (* Connect Graph *)
  emit (NodeConnect source analyser) ;;
  emit (NodeConnect analyser processor) ;;
  emit (NodeConnect processor (ctx_id inputCtx)) ;;
  (* Connect to Live API *)
  emit (LiveConnect MODEL_NAME "Fenrir") ;;
  ret processor.

(** From the settled [sessionPromise] to the end of the [try] block;
    [dataArray] is what the analyser measures on the first meter run. *)
Definition try_session (processor : positive) (settled : Settled Session)
    (dataArray : list byte) : M unit :=
  session <- await settled ;;
  modify (with_aiSessionRef (Some session)) ;;
  (* Setup Input Audio Processor Callback *)
  emit (SetOnAudioProcess processor) ;;
  (* Start Visual Loop *)
  updateVolume dataArray.

(** The stretches of one start attempt, with what the world answers. *)
Inductive Stretch : Type :=
| Contexts (ctorIn ctorOut : option JsError)
| Stream (settled : Settled MediaStream) (graph : option JsError)
| Live (processor : positive) (settled : Settled Session) (dataArray : list byte).

Definition try_block (st : Stretch) : M unit :=
  match st with
  | Contexts ctorIn ctorOut => try_contexts ctorIn ctorOut
  | Stream settled graph => try_stream settled graph ;; ret tt
  | Live processor settled dataArray => try_session processor settled dataArray
  end.

(** What runs before the [try] block is entered: [setError(null)], as the
    first statement of [startSession]. *)
Definition prologue (st : Stretch) : M unit :=
  match st with
  | Contexts _ _ => setError None
  | _ => ret tt
  end.

Definition startSession_stretch (st : Stretch) : M unit :=
  prologue st ;;
  try_catch (try_block st) catch_start.

(** The call [startSession()] itself: it runs up to the first [await]. *)
Definition startSession (ctorIn ctorOut : option JsError) : M unit :=
  startSession_stretch (Contexts ctorIn ctorOut).

(** ** Channel callbacks *)

Definition onopen : M unit :=
  emit (ConsoleLog "Gemini Live Session Opened") ;;
  setIsConnected true.

(** [sessionPromise.then(session => session.sendRealtimeInput(...))]. *)
Definition onopen_then (session : Session) : M unit :=
  emit (SendText "Initialize conversation.").

(** [message.serverContent?.modelTurn?.parts?.[0]?.inlineData?.data]. *)
Definition base64Audio (msg : LiveServerMessage) : option string :=
  match serverContent msg with
  | None => None
  | Some content =>
    match modelTurn content with
    | None => None
    | Some turn =>
      match parts turn with
      | Some (part :: _) =>
        match inlineData part with
        | None => None
        | Some inline => data inline
        end
      | _ => None
      end
    end
  end.

(** How the synchronous part of [onmessage] ends: it has returned, or it
    waits for [decodeAudioData] with [outputCtx] in hand. *)
Inductive Pending : Type :=
| Finished
| Decoding (outputCtx : AudioContext).

(** [onmessage], up to [await decodeAudioData]. *)
Definition onmessage (msg : LiveServerMessage) : M Pending :=
  if truthy (base64Audio msg) then
    setIsAiSpeaking true ;;
    outputCtx <- get outputAudioContextRef ;;
    match outputCtx with
    | None => ret Finished
    | Some outputCtx => ret (Decoding outputCtx)
    end
  else
    (* Handle Turn Complete (Optional logic): nothing *)
    ret Finished.

(** [onmessage], from the settled decode on.  [audioBuffer] is what
    [base64ToUint8Array] followed by [decodeAudioData] (both of
    [./utils/audioUtils]) came to; [currentTime] is the clock of
    [outputCtx] when the line is reached. *)
Definition onmessage_decoded (outputCtx : AudioContext)
    (audioBuffer : Settled AudioBuffer) (currentTime : Q) : M unit :=
  audioBuffer <- await audioBuffer ;;
  (* Schedule playback *)
  let now := currentTime in
  (* Ensure we don't schedule in the past *)
  cursor <- get nextStartTimeRef ;;
  let startTime := Qmax now cursor in
  source <- createNode outputCtx ;;
  emit (NodeConnect source (ctx_id outputCtx)) ;;
  emit (SourceStart (ctx_id outputCtx) source startTime (duration audioBuffer)) ;;
  modify (with_nextStartTimeRef (startTime + duration audioBuffer)) ;;
  emit (SetOnEnded source).

(** [source.onended]; [currentTime] is the clock of the context the
    segment played on. *)
Definition onended (currentTime : Q) : M unit :=
  cursor <- get nextStartTimeRef ;;
  if Qle_bool (cursor - 0.1) currentTime
  then setIsAiSpeaking false
  else ret tt.

Definition onclose : M unit :=
  emit (ConsoleLog "Gemini Live Session Closed") ;;
  stopSession.

Definition onerror (err : JsError) : M unit :=
  emit (ConsoleError "Gemini Live Error:" err) ;;
  setError (Some "Connection Error. Please try again.") ;;
  stopSession.

(** [processor.onaudioprocess]. *)
Definition onaudioprocess (session : Session) : M unit :=
  emit (SendMedia (session_id session)).

(** ** The controls and the event loop *)

(** [{!isConnected ? <button INITIALIZE/> : <button TERMINATE/>}]. *)
Inductive Control : Type := INITIALIZE | TERMINATE.

Definition control (s : App) : Control :=
  if negb (isConnected s) then INITIALIZE else TERMINATE.

(** What the event loop delivers: clicks, the unmounting of the component,
    the two promises [startSession] awaits, the callbacks of the channel,
    the settled decode of a message, the end of a segment, an animation
    frame, a block of captured samples.  An event that resumes code after
    an [await] carries the locals that code had in hand. *)
Inductive Event : Type :=
| ClickInitialize (ctorIn ctorOut : option JsError)
| ClickTerminate
| Unmount
| StreamSettled (settled : Settled MediaStream) (graph : option JsError)
| SessionSettled (processor : positive) (settled : Settled Session)
                 (dataArray : list byte)
| OnOpen
| OnOpenThen (session : Session)
| OnMessage (msg : LiveServerMessage)
| OnMessageDecoded (outputCtx : AudioContext) (audioBuffer : Settled AudioBuffer)
                   (currentTime : Q)
| OnEnded (currentTime : Q)
| OnClose
| OnError (err : JsError)
| AnimationFrame (dataArray : list byte)
| AudioProcess (session : Session).

(** A click reaches a handler only if its button is on the page. *)
Definition dispatch (e : Event) : M unit :=
  match e with
  | ClickInitialize ctorIn ctorOut =>
      s <- get control ;;
      match s with
      | INITIALIZE => startSession ctorIn ctorOut
      | TERMINATE => ret tt
      end
  | ClickTerminate =>
      s <- get control ;;
      match s with
      | INITIALIZE => ret tt
      | TERMINATE => stopSession
      end
  | Unmount => stopSession
  | StreamSettled settled graph => startSession_stretch (Stream settled graph)
  | SessionSettled processor settled dataArray =>
      startSession_stretch (Live processor settled dataArray)
  | OnOpen => onopen
  | OnOpenThen session => onopen_then session
  | OnMessage msg => onmessage msg ;; ret tt
  | OnMessageDecoded outputCtx audioBuffer currentTime =>
      onmessage_decoded outputCtx audioBuffer currentTime
  | OnEnded currentTime => onended currentTime
  | OnClose => onclose
  | OnError err => onerror err
  | AnimationFrame dataArray => updateVolume dataArray
  | AudioProcess session => onaudioprocess session
  end.

(** One turn of the event loop.  Nobody awaits the promise of an [async]
    handler: when it rejects, the state it left is what remains. *)
Definition step (e : Event) (s : App) : App := final (dispatch e s).

Definition run (es : list Event) (s : App) : App :=
  fold_left (fun s e => step e s) es s.

End Component.


(** * Derived notions used by the statements *)

(** ** Cleanup in closed form *)

(** The calls of one run of [stopSession], in order. *)
Definition closing_calls (session : option Session) : list Effect :=
  match session with
  | None => []
  | Some session =>
      SessionClose (session_id session) ::
      match session_close session with
      | Some e => [ConsoleWarn "Error closing session" e]
      | None => []
      end
  end.

Definition release_calls {A} (f : A -> list Effect) (o : option A) : list Effect :=
  match o with
  | Some a => f a
  | None => []
  end.

Definition cleanup_calls (s : App) : list Effect :=
  closing_calls (aiSessionRef s)
  ++ release_calls (fun stream => map TrackStop (getTracks stream)) (inputMediaStreamRef s)
  ++ release_calls (fun n => [NodeDisconnect n]) (processorRef s)
  ++ release_calls (fun n => [NodeDisconnect n]) (inputSourceRef s)
  ++ release_calls (fun c => [ContextClose (ctx_id c)]) (inputAudioContextRef s)
  ++ release_calls (fun c => [ContextClose (ctx_id c)]) (outputAudioContextRef s)
  ++ release_calls (fun h => [CancelAnimationFrame h]) (animationFrameRef s)
  ++ [SetIsConnected false; SetIsAiSpeaking false; SetVolume 0].

(** The state [stopSession] leaves: everything reset or released, the
    error message and the analyser reference as they were. *)
Definition stopped (s : App) : App :=
  mkApp false (error s) 0 false None None None None None (analyserRef s) 0
        None None (effects s ++ cleanup_calls s) (nextId s).

(** One [if (ref.current) { ...; ref.current = null }] block. *)
Definition after_release {A} (o : option A) (calls : A -> list Effect)
    (clear : App -> App) (s : App) : App :=
  match o with
  | Some a => clear (with_effects (effects s ++ calls a) s)
  | None => s
  end.

(** ** The playback timeline *)

(** The segments handed to the output device so far, oldest first, each
    as (start time, duration): the [source.start(startTime)] calls. *)
Definition segment_of (e : Effect) : list (Q * Q) :=
  match e with
  | SourceStart _ _ startTime dur => [(startTime, dur)]
  | _ => []
  end.

Definition scheduled (s : App) : list (Q * Q) := flat_map segment_of (effects s).

(** The events of a session that stays active: inbound messages and their
    decodes, completion callbacks, the channel opening, meter and capture
    ticks.  None of them is a start, a stop, a close or a channel error. *)
Definition streaming (e : Event) : bool :=
  match e with
  | OnOpen | OnOpenThen _ | OnMessage _ | OnMessageDecoded _ _ _
  | OnEnded _ | AnimationFrame _ | AudioProcess _ => true
  | _ => false
  end.

(** The segments a run of events asks to enqueue: for each decode that
    succeeded, the clock reading at that moment and the duration. *)
Definition request_of (e : Event) : list (Q * Q) :=
  match e with
  | OnMessageDecoded _ (Resolved audioBuffer) currentTime =>
      [(currentTime, duration audioBuffer)]
  | _ => []
  end.

Definition requests (es : list Event) : list (Q * Q) := flat_map request_of es.

(** The scheduler in the words of the specification: [start = max(now,
    cursor)], then [cursor = start + duration]. *)
Definition spec_enqueue (cursor now dur : Q) : (Q * Q) * Q :=
  let start := Qmax now cursor in
  ((start, dur), start + dur).

Fixpoint spec_schedule (cursor : Q) (reqs : list (Q * Q)) : list (Q * Q) * Q :=
  match reqs with
  | [] => ([], cursor)
  | (now, dur) :: rest =>
      let (segment, cursor') := spec_enqueue cursor now dur in
      let (segments, last) := spec_schedule cursor' rest in
      (segment :: segments, last)
  end.

(** Two segments overlap when some instant lies in both half-open
    intervals [start, start + duration). *)
Definition overlap (a b : Q * Q) : Prop :=
  exists t : Q,
    (fst a <= t /\ t < fst a + snd a) /\ (fst b <= t /\ t < fst b + snd b).

(** ** Session phases *)

(** Some device or channel handle is held. *)
Definition is_some {A} (o : option A) : bool :=
  match o with Some _ => true | None => false end.

Definition held (s : App) : bool :=
  is_some (aiSessionRef s) || is_some (inputMediaStreamRef s)
  || is_some (processorRef s) || is_some (inputSourceRef s)
  || is_some (inputAudioContextRef s) || is_some (outputAudioContextRef s)
  || is_some (animationFrameRef s).

(** [Idle]: not connected and nothing held. *)
Definition idle (s : App) : bool := negb (isConnected s) && negb (held s).

(** The part of the component that belongs to a running session: the
    connection, the device and channel handles, the timeline cursor. *)
Definition session_of (s : App) :=
  (isConnected s, aiSessionRef s, inputMediaStreamRef s, processorRef s,
   inputSourceRef s, inputAudioContextRef s, outputAudioContextRef s,
   nextStartTimeRef s).

(** Single flight as the specification words it: in every state that is
    not [Idle], a start request leaves the running session as it is. *)
Definition single_flight (K : option string) (R : Z) : Prop :=
  forall (s : App) (ctorIn ctorOut : option JsError),
    idle s = false ->
    session_of (step K R (ClickInitialize ctorIn ctorOut) s) = session_of s.

(** ** The meter *)

(** The arithmetic mean of the bins, as the specification words it: their
    sum over their number. *)
Definition total (bins : list byte) : Z :=
  fold_right Z.add 0%Z (map (fun b => Z.of_N (Byte.to_N b)) bins).

Definition mean (bins : list byte) : Q :=
  inject_Z (total bins) / inject_Z (Z.of_nat (List.length bins)).

(** ** Sample inputs *)

Definition sample_key : option string := Some "key".
Definition sample_rate : Z := 16000%Z.

Definition sample_stream : MediaStream := mkMediaStream 100 [101%positive].
Definition sample_session : Session :=
  mkSession 200 (Some (Error "WebSocket is already in CLOSING or CLOSED state.")).

Definition sample_audio : LiveServerMessage :=
  mkMessage (Some (mkServerContent
    (Some (mkContent (Some [mkPart (Some (mkInlineData (Some "AAAAAAAA")))])))
    None)).

Definition sample_bins : list byte := [x00; xff; x40; x10]%list.

(** A start request accepted, devices being acquired. *)
Definition connecting : App :=
  run sample_key sample_rate [ClickInitialize None None] initial.

(** The session once the channel is open and the promise has resolved. *)
Definition active : App :=
  run sample_key sample_rate
      [StreamSettled (Resolved sample_stream) None;
       OnOpen;
       SessionSettled 5 (Resolved sample_session) sample_bins]
      connecting.

(** The output context of [active]. *)
Definition sample_output : AudioContext := mkAudioContext 2 24000.

(** Two one-second segments, handled when the clock reads 0 and 0.5. *)
Definition two_segments : list Event :=
  [OnMessage sample_audio;
   OnMessageDecoded sample_output (Resolved (mkAudioBuffer 1)) 0;
   OnMessage sample_audio;
   OnMessageDecoded sample_output (Resolved (mkAudioBuffer 1)) 0.5].

(** * The rest of the component: what the page shows *)

(** ** The status line

    Three blocks, each under its own condition:
    [{error && ...}], [{!error && isConnected && ...}] and
    [{!error && !isConnected && ...}].  [None] is a block that is not
    drawn, [Some txt] one that shows [txt]. *)

Definition error_box (s : App) : option string :=
  if truthy (error s) then error s else None.

Definition status_text (s : App) : option string :=
  if negb (truthy (error s)) && isConnected s
  then Some (if isAiSpeaking s then "Elliot Speaking..." else "Listening...")
  else None.

Definition offline_text (s : App) : option string :=
  if negb (truthy (error s)) && negb (isConnected s)
  then Some "System Offline"
  else None.

(** ** The orb ([components/Orb]) *)

Module Orb.

Record OrbProps : Type := mkOrbProps {
  isActive : bool;
  volume : Q;  (* 0 to 1 *)
  isAiSpeaking : bool
}.

(** Base scale is 1, and it grows with the volume. *)
Definition scale (p : OrbProps) : Q :=
  if isActive p then 1 + volume p * 1.5 else 1.

(** Dynamic glow opacity based on activity. *)
Definition glowOpacity (p : OrbProps) : Q :=
  if isActive p then 0.6 + (volume p * 0.4) else 0.2.

(** Color shift if the AI is speaking. *)
Definition coreColor (p : OrbProps) : string :=
  if isAiSpeaking p then "bg-white" else "bg-neon".

(** The three layers, each with the [opacity] and the [scale(...)] of its
    [style] (the core sets no opacity). *)
Record Layer : Type := mkLayer {
  opacity : option Q;
  transform : Q
}.

Definition outerGlow (p : OrbProps) : Layer :=
  mkLayer (Some (glowOpacity p * 0.5)) (scale p * 1.2).

Definition innerGlow (p : OrbProps) : Layer :=
  mkLayer (Some (glowOpacity p)) (scale p * 1.1).

Definition core (p : OrbProps) : Layer :=
  mkLayer None (scale p).

End Orb.

(** [<Orb isActive={isConnected} volume={volume} isAiSpeaking={isAiSpeaking} />]. *)
Definition orb (s : App) : Orb.OrbProps :=
  Orb.mkOrbProps (isConnected s) (volume s) (isAiSpeaking s).

(** * Further derived notions *)

(** [calls] made on top of those of [s]. *)
Definition called (calls : list Effect) (s : App) : App :=
  with_effects (effects s ++ calls) s.

(** The state the [catch] block of [startSession] leaves when it is
    entered with [err] in state [s]. *)
Definition caught (err : JsError) (s : App) : App :=
  stopped
    (called [SetError (Some (or_else (message err) "Failed to initialize."))]
       (with_error (Some (or_else (message err) "Failed to initialize."))
          (called [ConsoleError "Initialization Error:" err] s))).

(** The events that end a session: the component unmounting, the channel
    closing or failing, and a click on TERMINATE while it is on the page. *)
Definition ends_session (s : App) (e : Event) : bool :=
  match e with
  | Unmount | OnClose | OnError _ => true
  | ClickTerminate => isConnected s
  | _ => false
  end.

(** The analyser always fills at least one bin. *)
Definition measured (e : Event) : Prop :=
  match e with
  | AnimationFrame dataArray => dataArray <> []
  | SessionSettled _ _ dataArray => dataArray <> []
  | _ => True
  end.

(** The audio a list of requests asks to play, in seconds. *)
Definition total_duration (reqs : list (Q * Q)) : Q :=
  fold_right (fun r acc => snd r + acc) 0 reqs.

(** A start that meets no failure, from the click to the first meter run:
    the stream arrives, the channel opens, the connection resolves. *)
Definition successful_start (stream : MediaStream) (processor : positive)
    (session : Session) (dataArray : list byte) : list Event :=
  [ClickInitialize None None;
   StreamSettled (Resolved stream) None;
   OnOpen;
   SessionSettled processor (Resolved session) dataArray].

(** ** Handlers in closed form *)

(** The value [updateVolume] hands to [setVolume]. *)
Definition level (dataArray : list byte) : Q :=
  Qmin (fold_left (fun sum b => sum + bin b) dataArray 0
          / inject_Z (Z.of_nat (List.length dataArray)) / 100) 1.

(** The state one run of [updateVolume] leaves. *)
Definition metered (dataArray : list byte) (s : App) : App :=
  with_animationFrameRef (Some (nextId s))
    (called [RequestAnimationFrame (nextId s)]
       (with_nextId (Pos.succ (nextId s))
          (match analyserRef s with
           | Some _ => called [SetVolume (level dataArray)]
                              (with_volume (level dataArray) s)
           | None => s
           end))).

(** The state after [setError(null)] and one audio context. *)
Definition input_context_made (R : Z) (s : App) : App :=
  with_inputAudioContextRef (Some (mkAudioContext (nextId s) R))
    (called [NewAudioContext (nextId s) R]
       (with_nextId (Pos.succ (nextId s))
          (called [SetError None] (with_error None s)))).

(** The state the first stretch of [startSession] leaves when nothing
    fails. *)
Definition contexts_made (R : Z) (s : App) : App :=
  called [GetUserMedia]
    (with_outputAudioContextRef (Some (mkAudioContext (Pos.succ (nextId s)) 24000))
       (called [NewAudioContext (Pos.succ (nextId s)) 24000]
          (with_nextId (Pos.succ (Pos.succ (nextId s)))
             (input_context_made R s)))).

(** The state the second stretch leaves when nothing fails: the stream
    kept, the three nodes of the input chain created in [inputCtx] and
    connected, the connection asked for. *)
Definition chain_built (stream : MediaStream) (inputCtx : AudioContext) (s : App) : App :=
  let source := nextId s in
  let analyser := Pos.succ source in
  let processor := Pos.succ analyser in
  called [LiveConnect MODEL_NAME "Fenrir"]
    (called [NodeConnect processor (ctx_id inputCtx)]
       (called [NodeConnect analyser processor]
          (called [NodeConnect source analyser]
             (with_processorRef (Some processor)
                (called [CreateNode (ctx_id inputCtx) processor]
                   (with_nextId (Pos.succ processor)
                      (with_analyserRef (Some analyser)
                         (called [CreateNode (ctx_id inputCtx) analyser]
                            (with_nextId (Pos.succ analyser)
                               (with_inputSourceRef (Some source)
                                  (called [CreateNode (ctx_id inputCtx) source]
                                     (with_nextId (Pos.succ source)
                                        (with_inputMediaStreamRef (Some stream) s))))))))))))).

(** The state the third stretch leaves when the connection resolved. *)
Definition adopted (processor : positive) (session : Session)
    (dataArray : list byte) (s : App) : App :=
  metered dataArray
    (called [SetOnAudioProcess processor] (with_aiSessionRef (Some session) s)).

(** The state each stretch of [startSession] leaves, case by case. *)
Definition after_stretch (K : option string) (R : Z) (st : Stretch) (s : App) : App :=
  match st with
  | Contexts ctorIn ctorOut =>
      if truthy K then
        match ctorIn with
        | Some e => caught e (called [SetError None] (with_error None s))
        | None =>
          match ctorOut with
          | Some e => caught e (input_context_made R s)
          | None => contexts_made R s
          end
        end
      else caught (Error "API Key is missing.")
                  (called [SetError None] (with_error None s))
  | Stream (Rejected e) _ => caught e s
  | Stream (Resolved stream) graph =>
      match inputAudioContextRef s with
      | None =>
          caught (Error "Cannot read properties of null (reading 'createMediaStreamSource')")
                 (with_inputMediaStreamRef (Some stream) s)
      | Some inputCtx =>
          match graph with
          | Some e => caught e (with_inputMediaStreamRef (Some stream) s)
          | None => chain_built stream inputCtx s
          end
      end
  | Live _ (Rejected e) _ => caught e s
  | Live processor (Resolved session) dataArray => adopted processor session dataArray s
  end.

(** The state each event leaves, case by case. *)
Definition after (K : option string) (R : Z) (e : Event) (s : App) : App :=
  match e with
  | ClickInitialize ctorIn ctorOut =>
      if isConnected s then s else after_stretch K R (Contexts ctorIn ctorOut) s
  | ClickTerminate => if isConnected s then stopped s else s
  | Unmount => stopped s
  | StreamSettled settled graph => after_stretch K R (Stream settled graph) s
  | SessionSettled processor settled dataArray =>
      after_stretch K R (Live processor settled dataArray) s
  | OnOpen =>
      called [SetIsConnected true]
        (with_isConnected true (called [ConsoleLog "Gemini Live Session Opened"] s))
  | OnOpenThen _ => called [SendText "Initialize conversation."] s
  | OnMessage msg =>
      if truthy (base64Audio msg)
      then called [SetIsAiSpeaking true] (with_isAiSpeaking true s)
      else s
  | OnMessageDecoded outputCtx (Resolved audioBuffer) currentTime =>
      with_effects
        (effects s ++
           [CreateNode (ctx_id outputCtx) (nextId s);
            NodeConnect (nextId s) (ctx_id outputCtx);
            SourceStart (ctx_id outputCtx) (nextId s)
                        (Qmax currentTime (nextStartTimeRef s)) (duration audioBuffer);
            SetOnEnded (nextId s)])
        (with_nextStartTimeRef
           (Qmax currentTime (nextStartTimeRef s) + duration audioBuffer)
           (with_nextId (Pos.succ (nextId s)) s))
  | OnMessageDecoded _ (Rejected _) _ => s
  | OnEnded currentTime =>
      if Qle_bool (nextStartTimeRef s - 0.1) currentTime
      then called [SetIsAiSpeaking false] (with_isAiSpeaking false s)
      else s
  | OnClose => stopped (called [ConsoleLog "Gemini Live Session Closed"] s)
  | OnError err =>
      stopped
        (called [SetError (Some "Connection Error. Please try again.")]
           (with_error (Some "Connection Error. Please try again.")
              (called [ConsoleError "Gemini Live Error:" err] s)))
  | AnimationFrame dataArray => metered dataArray s
  | AudioProcess session => called [SendMedia (session_id session)] s
  end.

(** ** Audio contexts *)

(** [x] identifies an audio context the component references. *)
Definition references (s : App) (x : positive) : Prop :=
  (exists c, inputAudioContextRef s = Some c /\ ctx_id c = x)
  \/ (exists c, outputAudioContextRef s = Some c /\ ctx_id c = x).

(** Every context referenced was handed out earlier than the next
    identifier. *)
Definition contexts_known (s : App) : Prop :=
  forall x, references s x -> (x < nextId s)%positive.

(** * Properties *)

(** ** Cleanup in closed form *)

Lemma with_effects_same (s : App) : with_effects (effects s) s = s.
Proof. destruct s; reflexivity. Qed.

Lemma forEach_emit {A} (f : A -> Effect) (xs : list A) (s : App) :
  forEach xs (fun x => emit (f x)) s
  = Returned tt (with_effects (effects s ++ map f xs) s).
Proof.
  revert s; induction xs as [|x xs IH]; intro s; simpl.
  - rewrite app_nil_r, with_effects_same; reflexivity.
  - unfold bind at 1; simpl. rewrite IH; simpl.
    rewrite <- app_assoc; reflexivity.
Qed.

Lemma bind_returned {A B} (m : M A) (k : A -> M B) (s : App) (a : A) (s' : App) :
  m s = Returned a s' -> (x <- m ;; k x) s = k a s'.
Proof. intro H; unfold bind; rewrite H; reflexivity. Qed.

Lemma bind_thrown {A B} (m : M A) (k : A -> M B) (s : App) (e : JsError) (s' : App) :
  m s = Thrown e s' -> (x <- m ;; k x) s = Thrown e s'.
Proof. intro H; unfold bind; rewrite H; reflexivity. Qed.

Lemma release_block {A} (o : option A) (f : A -> Effect) (clear : App -> App) (s : App) :
  when_some o (fun a => emit (f a) ;; modify clear) s
  = Returned tt (after_release o (fun a => [f a]) clear s).
Proof. destruct o; reflexivity. Qed.

Lemma close_block (o : option Session) (s : App) :
  when_some o (fun session =>
    try_catch (close session)
              (fun e => emit (ConsoleWarn "Error closing session" e)) ;;
    modify (with_aiSessionRef None)) s
  = Returned tt (after_release o (fun session => closing_calls (Some session))
                               (with_aiSessionRef None) s).
Proof.
  destruct o as [[sid [e|]]|]; try reflexivity.
  - destruct s; cbn. rewrite <- app_assoc. reflexivity.
Qed.

Lemma tracks_block (o : option MediaStream) (s : App) :
  when_some o (fun stream =>
    forEach (getTracks stream) (fun track => emit (TrackStop track)) ;;
    modify (with_inputMediaStreamRef None)) s
  = Returned tt (after_release o (fun stream => map TrackStop (getTracks stream))
                               (with_inputMediaStreamRef None) s).
Proof.
  destruct o as [stream|]; try reflexivity.
  cbn [when_some after_release].
  erewrite bind_returned by apply forEach_emit. reflexivity.
Qed.

Lemma stopSession_eq (s : App) : stopSession s = Returned tt (stopped s).
Proof.
  unfold stopSession.
  erewrite bind_returned by reflexivity.
  erewrite bind_returned by apply close_block.
  erewrite bind_returned by reflexivity.
  erewrite bind_returned by apply tracks_block.
  do 5 (erewrite bind_returned by reflexivity;
        erewrite bind_returned by apply release_block).
  destruct s as [co er vo sp ic oc ms src pr an cur se fr eff nid].
  unfold stopped, cleanup_calls, release_calls.
  destruct se, ms, pr, src, ic, oc, fr;
    cbv -[app map closing_calls];
    repeat rewrite <- app_assoc; reflexivity.
Qed.

Lemma cleanup_calls_no_setError (s : App) (m : option string) :
  ~ In (SetError m) (cleanup_calls s).
Proof.
  unfold cleanup_calls, closing_calls, release_calls.
  rewrite !in_app_iff.
  destruct (aiSessionRef s) as [[sid [e|]]|], (inputMediaStreamRef s),
    (processorRef s), (inputSourceRef s), (inputAudioContextRef s),
    (outputAudioContextRef s), (animationFrameRef s);
    cbn; rewrite ?in_map_iff;
    intuition (try discriminate);
    match goal with H : exists _, _ |- _ => destruct H as [? [? ?]]; discriminate end.
Qed.

(** C4.  [stopSession] always returns, whatever the state and whether or
    not [close()] of the channel throws.  A throwing [close()] is logged
    with [console.warn] and is not shown to the user (no [setError], the
    error message stays as it was).  Every handle that was held gets its
    release call, and afterwards the connection flag and the AI-speaking
    flag are false, the volume and the timeline cursor are 0, and the
    channel, input stream, processor, input source, input context, output
    context and animation frame references are null. *)
Theorem stopSession_total (s : App) :
  exists s' calls,
    stopSession s = Returned tt s' /\
    effects s' = effects s ++ calls /\
    (forall session e,
        aiSessionRef s = Some session -> session_close session = Some e ->
        In (ConsoleWarn "Error closing session" e) calls) /\
    error s' = error s /\
    (forall m, ~ In (SetError m) calls) /\
    (forall session,
        aiSessionRef s = Some session -> In (SessionClose (session_id session)) calls) /\
    (forall stream track,
        inputMediaStreamRef s = Some stream -> In track (getTracks stream) ->
        In (TrackStop track) calls) /\
    (forall n, processorRef s = Some n -> In (NodeDisconnect n) calls) /\
    (forall n, inputSourceRef s = Some n -> In (NodeDisconnect n) calls) /\
    (forall c, inputAudioContextRef s = Some c -> In (ContextClose (ctx_id c)) calls) /\
    (forall c, outputAudioContextRef s = Some c -> In (ContextClose (ctx_id c)) calls) /\
    (forall h, animationFrameRef s = Some h -> In (CancelAnimationFrame h) calls) /\
    isConnected s' = false /\
    isAiSpeaking s' = false /\
    volume s' = 0 /\
    nextStartTimeRef s' = 0 /\
    aiSessionRef s' = None /\
    inputMediaStreamRef s' = None /\
    processorRef s' = None /\
    inputSourceRef s' = None /\
    inputAudioContextRef s' = None /\
    outputAudioContextRef s' = None /\
    animationFrameRef s' = None.
Proof.
  exists (stopped s), (cleanup_calls s).
  split; [apply stopSession_eq|].
  split; [reflexivity|].
  repeat match goal with |- _ /\ _ => split end; try reflexivity;
    try apply cleanup_calls_no_setError;
    unfold cleanup_calls; intros;
    repeat match goal with H : _ = Some _ |- _ => rewrite H; clear H end;
    cbn [closing_calls release_calls]; rewrite !in_app_iff; cbn [In];
    auto 12 using in_map.
  left; right.
  match goal with H : session_close _ = _ |- _ => rewrite H end.
  left; reflexivity.
Qed.

(** ** The completion callback *)

(** C8.  When [source.onended] fires, [setIsAiSpeaking(false)] is called
    if and only if the clock of the output context reads at least the
    timeline cursor minus 0.1; when it is called the flag is false
    afterwards, and otherwise the component is left exactly as it was. *)
Theorem onended_flag_policy (currentTime : Q) (s : App) :
  exists s',
    onended currentTime s = Returned tt s' /\
    (currentTime >= nextStartTimeRef s - 0.1 <->
     effects s' = effects s ++ [SetIsAiSpeaking false]) /\
    (currentTime >= nextStartTimeRef s - 0.1 -> isAiSpeaking s' = false) /\
    (~ currentTime >= nextStartTimeRef s - 0.1 -> s' = s).
Proof.
  unfold onended, bind, get.
  destruct (Qle_bool (nextStartTimeRef s - 0.1) currentTime) eqn:E.
  - apply Qle_bool_iff in E.
    eexists; split; [reflexivity|].
    repeat split; intros; try reflexivity; try assumption; contradiction.
  - assert (N : ~ nextStartTimeRef s - 0.1 <= currentTime)
      by (rewrite <- Qle_bool_iff, E; discriminate).
    exists s; split; [reflexivity|].
    repeat split; intros; try contradiction.
    exfalso. apply (f_equal (@List.length Effect)) in H.
    rewrite length_app in H; simpl in H; lia.
Qed.

(** ** The playback timeline *)

Lemma scheduled_snoc (s : App) (l calls : list Effect) :
  effects s = l ++ calls ->
  scheduled s = flat_map segment_of l ++ flat_map segment_of calls.
Proof. intro H; unfold scheduled; rewrite H; apply flat_map_app. Qed.

Lemma onmessage_decoded_eq (outputCtx : AudioContext) (audioBuffer : AudioBuffer)
    (currentTime : Q) (s : App) :
  onmessage_decoded outputCtx (Resolved audioBuffer) currentTime s
  = Returned tt
      (with_effects
         (effects s ++
            [CreateNode (ctx_id outputCtx) (nextId s);
             NodeConnect (nextId s) (ctx_id outputCtx);
             SourceStart (ctx_id outputCtx) (nextId s)
                         (Qmax currentTime (nextStartTimeRef s)) (duration audioBuffer);
             SetOnEnded (nextId s)])
         (with_nextStartTimeRef
            (Qmax currentTime (nextStartTimeRef s) + duration audioBuffer)
            (with_nextId (Pos.succ (nextId s)) s))).
Proof.
  destruct s; cbv -[Qmax Qplus app Pos.succ].
  repeat rewrite <- app_assoc; reflexivity.
Qed.

Lemma onmessage_decoded_rejected (outputCtx : AudioContext) (e : JsError)
    (currentTime : Q) (s : App) :
  onmessage_decoded outputCtx (Rejected e) currentTime s = Thrown e s.
Proof. reflexivity. Qed.

(** What one event of an active session does to the timeline. *)
Lemma step_streaming (K : option string) (R : Z) (e : Event) (s : App) :
  streaming e = true ->
  scheduled (step K R e s)
  = scheduled s
    ++ map (fun r => fst (spec_enqueue (nextStartTimeRef s) (fst r) (snd r)))
           (request_of e)
  /\ nextStartTimeRef (step K R e s)
     = fold_left (fun c r => snd (spec_enqueue c (fst r) (snd r)))
                 (request_of e) (nextStartTimeRef s).
Proof.
  destruct e; try discriminate; intros _; unfold step, dispatch.
  - (* onopen *)
    split; [|reflexivity].
    erewrite scheduled_snoc by (cbn; rewrite <- app_assoc; reflexivity).
    cbn; rewrite !app_nil_r; reflexivity.
  - (* the initial prompt *)
    split; [|reflexivity].
    erewrite scheduled_snoc by (cbn; reflexivity).
    cbn; rewrite !app_nil_r; reflexivity.
  - (* onmessage, synchronous part *)
    unfold onmessage, bind.
    destruct (truthy (base64Audio msg)); [|split; cbn; rewrite ?app_nil_r; reflexivity].
    cbn -[scheduled]. destruct (outputAudioContextRef s); cbn -[scheduled];
      (split; [|reflexivity]);
      (erewrite scheduled_snoc by (cbn; reflexivity));
      cbn; rewrite !app_nil_r; reflexivity.
  - (* onmessage, after the decode *)
    destruct audioBuffer as [audioBuffer|err].
    + rewrite onmessage_decoded_eq. cbn [final request_of map fold_left fst snd spec_enqueue].
      split; [|reflexivity].
      erewrite scheduled_snoc by (cbn; reflexivity).
      cbn; reflexivity.
    + rewrite onmessage_decoded_rejected; cbn; rewrite app_nil_r; split; reflexivity.
  - (* onended *)
    unfold onended, bind, get.
    destruct (Qle_bool _ _); (split; [|reflexivity]).
    + erewrite scheduled_snoc by (cbn; reflexivity).
      cbn; rewrite !app_nil_r; reflexivity.
    + cbn; rewrite app_nil_r; reflexivity.
  - (* updateVolume *)
    unfold updateVolume, bind, get.
    destruct (analyserRef s); (split; [|reflexivity]).
    + erewrite scheduled_snoc by (cbn -[Qmin Qdiv fold_left]; rewrite <- app_assoc; reflexivity).
      cbn; rewrite !app_nil_r; reflexivity.
    + erewrite scheduled_snoc by (cbn; reflexivity).
      cbn; rewrite !app_nil_r; reflexivity.
  - (* onaudioprocess *)
    split; [|reflexivity].
    erewrite scheduled_snoc by (cbn; reflexivity).
    cbn; rewrite !app_nil_r; reflexivity.
Qed.

Lemma spec_schedule_app (c : Q) (r1 r2 : list (Q * Q)) :
  spec_schedule c (r1 ++ r2)
  = (fst (spec_schedule c r1) ++ fst (spec_schedule (snd (spec_schedule c r1)) r2),
     snd (spec_schedule (snd (spec_schedule c r1)) r2)).
Proof.
  revert c; induction r1 as [|[now dur] r1 IH]; intro c; cbn [app spec_schedule].
  - cbn [fst snd app]. destruct (spec_schedule c r2); reflexivity.
  - unfold spec_enqueue. rewrite IH.
    destruct (spec_schedule (Qmax now c + dur) r1); reflexivity.
Qed.

Lemma run_app (K : option string) (R : Z) (es1 es2 : list Event) (s : App) :
  run K R (es1 ++ es2) s = run K R es2 (run K R es1 s).
Proof. apply fold_left_app. Qed.

Lemma requests_app (es1 es2 : list Event) :
  requests (es1 ++ es2) = requests es1 ++ requests es2.
Proof. apply flat_map_app. Qed.

(** The code schedules exactly what the specification's [enqueue] does. *)
Lemma run_streaming (K : option string) (R : Z) (es : list Event) (s : App) :
  forallb streaming es = true ->
  scheduled (run K R es s)
  = scheduled s ++ fst (spec_schedule (nextStartTimeRef s) (requests es))
  /\ nextStartTimeRef (run K R es s)
     = snd (spec_schedule (nextStartTimeRef s) (requests es)).
Proof.
  revert s; induction es as [|e es IH]; intros s Hs.
  - cbn; rewrite app_nil_r; split; reflexivity.
  - cbn [forallb] in Hs; apply andb_true_iff in Hs as [He Hes].
    destruct (step_streaming K R e s He) as [Hsched Hcur].
    destruct (IH (step K R e s) Hes) as [IHsched IHcur].
    change (run K R (e :: es) s) with (run K R es (step K R e s)).
    change (requests (e :: es)) with (request_of e ++ requests es).
    rewrite spec_schedule_app; cbn [fst snd].
    assert (E : spec_schedule (nextStartTimeRef s) (request_of e)
                = (map (fun r => fst (spec_enqueue (nextStartTimeRef s) (fst r) (snd r)))
                       (request_of e),
                   fold_left (fun c r => snd (spec_enqueue c (fst r) (snd r)))
                             (request_of e) (nextStartTimeRef s))).
    { destruct e; try reflexivity. destruct audioBuffer; reflexivity. }
    rewrite E; cbn [fst snd]. rewrite <- Hcur.
    split; [|exact IHcur].
    rewrite IHsched, Hsched, <- app_assoc. reflexivity.
Qed.

(** What the specification's scheduler guarantees when no duration is
    negative: the cursor does not go back, every segment lies between the
    old and the new cursor, and each segment ends before the next starts. *)
Lemma spec_schedule_timeline (reqs : list (Q * Q)) (c : Q) :
  Forall (fun r => 0 <= snd r) reqs ->
  c <= snd (spec_schedule c reqs)
  /\ Forall (fun seg => c <= fst seg /\ 0 <= snd seg
                        /\ fst seg + snd seg <= snd (spec_schedule c reqs))
            (fst (spec_schedule c reqs))
  /\ StronglySorted (fun a b => fst a + snd a <= fst b) (fst (spec_schedule c reqs)).
Proof.
  revert c; induction reqs as [|[now dur] reqs IH]; intros c Hpos.
  - cbn; repeat split; try constructor. apply Qle_refl.
  - inversion Hpos as [|? ? Hdur Hrest]; subst; cbn [snd] in Hdur.
    cbn [spec_schedule]; unfold spec_enqueue.
    destruct (IH (Qmax now c + dur) Hrest) as [Hle [Hall Hsorted]].
    destruct (spec_schedule (Qmax now c + dur) reqs) as [segments last];
      cbn [fst snd] in *.
    assert (Hc : c <= Qmax now c) by apply Q.le_max_r.
    repeat split.
    + lra.
    + constructor; cbn [fst snd]; [repeat split; lra|].
      eapply Forall_impl; [|exact Hall]. cbn; intros seg [H1 [H2 H3]].
      repeat split; lra.
    + constructor; [exact Hsorted|].
      eapply Forall_impl; [|exact Hall]. cbn; intros seg [H1 _]. exact H1.
Qed.

Lemma StronglySorted_nth_error {A} (P : A -> A -> Prop) (l : list A) :
  StronglySorted P l ->
  forall i j a b, (i < j)%nat ->
    nth_error l i = Some a -> nth_error l j = Some b -> P a b.
Proof.
  induction 1 as [|x l Hsorted IH Hall]; intros i j a b Hij Ha Hb.
  - destruct i; discriminate.
  - destruct j as [|j]; [lia|]. cbn in Hb.
    destruct i as [|i]; cbn in Ha.
    + injection Ha as <-. rewrite Forall_forall in Hall.
      apply Hall. eapply nth_error_In; eassumption.
    + apply (IH i j); [lia|assumption..].
Qed.

(** C1.  Over any run of events of an active session (inbound messages
    and their decodes, interleaved with completion callbacks and ticks):
    a decoded segment is started at [max(currentTime, cursor)] and the
    cursor becomes that start plus the duration, so the segments scheduled
    are those of the specification's [enqueue] applied in order; and when
    no duration is negative the cursor never decreases along the run,
    start times are non-decreasing and no two segments overlap. *)
Theorem enqueue_timeline (K : option string) (R : Z) (es : list Event) (s : App) :
  forallb streaming es = true ->
  let segments := fst (spec_schedule (nextStartTimeRef s) (requests es)) in
  (forall outputCtx audioBuffer currentTime s0,
      let s1 := step K R (OnMessageDecoded outputCtx (Resolved audioBuffer) currentTime) s0 in
      scheduled s1
      = scheduled s0 ++ [(Qmax currentTime (nextStartTimeRef s0), duration audioBuffer)]
      /\ nextStartTimeRef s1
         = Qmax currentTime (nextStartTimeRef s0) + duration audioBuffer) /\
  scheduled (run K R es s) = scheduled s ++ segments /\
  nextStartTimeRef (run K R es s)
  = snd (spec_schedule (nextStartTimeRef s) (requests es)) /\
  (Forall (fun r => 0 <= snd r) (requests es) ->
   (forall es1 es2, es = es1 ++ es2 ->
      nextStartTimeRef (run K R es1 s) <= nextStartTimeRef (run K R es s)) /\
   (forall i j a b, (i < j)%nat ->
      nth_error segments i = Some a -> nth_error segments j = Some b ->
      fst a <= fst b /\ ~ overlap a b)).
Proof.
  intros Hs segments.
  destruct (run_streaming K R es s Hs) as [Hsched Hcur].
  split; [|split; [exact Hsched|split; [exact Hcur|]]].
  - intros outputCtx audioBuffer currentTime s0.
    exact (step_streaming K R (OnMessageDecoded outputCtx (Resolved audioBuffer) currentTime)
                          s0 eq_refl).
  - intro Hpos. split.
    + intros es1 es2 ->.
      rewrite forallb_app in Hs; apply andb_true_iff in Hs as [_ Hs2].
      rewrite requests_app in Hpos; apply Forall_app in Hpos as [_ Hpos2].
      rewrite run_app.
      rewrite (proj2 (run_streaming K R es2 (run K R es1 s) Hs2)).
      apply spec_schedule_timeline; exact Hpos2.
    + intros i j a b Hij Ha Hb.
      destruct (spec_schedule_timeline (requests es) (nextStartTimeRef s) Hpos)
        as [_ [Hall Hsorted]].
      pose proof (StronglySorted_nth_error _ _ Hsorted i j a b Hij Ha Hb) as Hab.
      rewrite Forall_forall in Hall.
      destruct (Hall a (nth_error_In _ _ Ha)) as [_ [Hda _]].
      cbn beta in Hab.
      split; [lra|].
      intros [t [[H1 H2] [H3 H4]]]. lra.
Qed.

Lemma enqueue_timeline_witness :
  forallb streaming two_segments = true /\
  scheduled (run sample_key sample_rate two_segments active)
  = scheduled active ++ [(0, 1); (1, 1)].
Proof.
  split; [reflexivity|].
  destruct (enqueue_timeline sample_key sample_rate two_segments active eq_refl)
    as [_ [H _]].
  exact H.
Defined.

(** C6.  Two one-second segments enqueued when the output clock reads 0.0
    and then 0.5, the cursor being 0 before: the first is started at 0.0,
    the second at 1.0, and the cursor ends at 2.0. *)
Theorem two_segments_scenario (K : option string) (R : Z) (s : App)
    (m1 m2 : LiveServerMessage) (c1 c2 : AudioContext) (b1 b2 : AudioBuffer)
    (now1 now2 : Q) :
  nextStartTimeRef s == 0 ->
  duration b1 == 1 -> duration b2 == 1 ->
  now1 == 0 -> now2 == 0.5 ->
  let s' := run K R [OnMessage m1; OnMessageDecoded c1 (Resolved b1) now1;
                     OnMessage m2; OnMessageDecoded c2 (Resolved b2) now2] s in
  exists start1 start2,
    scheduled s' = scheduled s ++ [(start1, duration b1); (start2, duration b2)]
    /\ start1 == 0 /\ start2 == 1 /\ nextStartTimeRef s' == 2.
Proof.
  intros Hc Hb1 Hb2 Hn1 Hn2 s'.
  destruct (run_streaming K R
              [OnMessage m1; OnMessageDecoded c1 (Resolved b1) now1;
               OnMessage m2; OnMessageDecoded c2 (Resolved b2) now2] s eq_refl)
    as [Hsched Hcur].
  fold s' in Hsched, Hcur.
  cbn [requests flat_map request_of app spec_schedule spec_enqueue fst snd] in Hsched, Hcur.
  exists (Qmax now1 (nextStartTimeRef s)),
         (Qmax now2 (Qmax now1 (nextStartTimeRef s) + duration b1)).
  split; [exact Hsched|].
  assert (H1 : Qmax now1 (nextStartTimeRef s) == 0).
  { destruct (Q.max_spec now1 (nextStartTimeRef s)) as [[_ E]|[_ E]]; rewrite E; assumption. }
  assert (H2 : Qmax now2 (Qmax now1 (nextStartTimeRef s) + duration b1) == 1).
  { destruct (Q.max_spec now2 (Qmax now1 (nextStartTimeRef s) + duration b1))
      as [[L E]|[L E]]; rewrite E; lra. }
  repeat split; [exact H1|exact H2|].
  rewrite Hcur. lra.
Qed.

Lemma two_segments_scenario_witness :
  exists start1 start2,
    scheduled (run sample_key sample_rate two_segments active)
    = scheduled active ++ [(start1, 1); (start2, 1)]
    /\ start1 == 0 /\ start2 == 1
    /\ nextStartTimeRef (run sample_key sample_rate two_segments active) == 2.
Proof.
  apply (two_segments_scenario sample_key sample_rate active sample_audio sample_audio
           sample_output sample_output (mkAudioBuffer 1) (mkAudioBuffer 1) 0 0.5);
    reflexivity.
Defined.

(** ** Inbound messages that are not played *)

(** C9.  An inbound message that carries audio, handled while the output
    context reference is null: the handler calls [setIsAiSpeaking(true)]
    and returns.  It does not throw, it waits for no decode, it schedules
    nothing, it leaves the cursor alone, and nothing sets the flag back:
    the flag is true afterwards. *)
Theorem onmessage_without_output_context (msg : LiveServerMessage) (s : App) :
  truthy (base64Audio msg) = true ->
  outputAudioContextRef s = None ->
  exists s',
    onmessage msg s = Returned Finished s' /\
    effects s' = effects s ++ [SetIsAiSpeaking true] /\
    isAiSpeaking s' = true /\
    scheduled s' = scheduled s /\
    nextStartTimeRef s' = nextStartTimeRef s.
Proof.
  intros Haudio Hctx. unfold onmessage. rewrite Haudio.
  erewrite bind_returned by reflexivity.
  erewrite bind_returned by reflexivity.
  cbn [outputAudioContextRef with_effects with_isAiSpeaking].
  rewrite Hctx.
  eexists; split; [reflexivity|].
  repeat split.
  erewrite scheduled_snoc by reflexivity.
  cbn; rewrite app_nil_r; reflexivity.
Qed.

(** After a stop, a late audio message leaves the flag up with nothing
    scheduled. *)
Lemma onmessage_without_output_context_witness :
  let s := step sample_key sample_rate ClickTerminate active in
  outputAudioContextRef s = None /\
  exists s',
    onmessage sample_audio s = Returned Finished s' /\
    effects s' = effects s ++ [SetIsAiSpeaking true] /\
    isAiSpeaking s' = true /\
    scheduled s' = scheduled s /\
    nextStartTimeRef s' = nextStartTimeRef s.
Proof.
  split; [reflexivity|].
  apply (onmessage_without_output_context sample_audio
           (step sample_key sample_rate ClickTerminate active)); reflexivity.
Defined.

(** C2.  A decode that fails ends the handling of that one message and
    nothing else: the component is exactly as the synchronous part of the
    handler left it (connection flag, handles, cursor and error message
    as before the message; no cleanup call, since the only call the
    message caused is [setIsAiSpeaking(true)]), the events that follow
    run as if the failed decode had never been delivered, and the next
    decoded segment is scheduled as usual. *)
Theorem decode_failure_isolated (K : option string) (R : Z)
    (msg : LiveServerMessage) (outputCtx : AudioContext) (e : JsError)
    (currentTime : Q) (s : App) :
  let s1 := step K R (OnMessage msg) s in
  let failed := OnMessageDecoded outputCtx (Rejected e) currentTime in
  step K R failed s1 = s1 /\
  session_of s1 = session_of s /\
  error s1 = error s /\
  (effects s1 = effects s \/ effects s1 = effects s ++ [SetIsAiSpeaking true]) /\
  (forall rest, run K R (OnMessage msg :: failed :: rest) s = run K R rest s1) /\
  (forall outputCtx' audioBuffer currentTime',
      scheduled (run K R [failed;
                          OnMessageDecoded outputCtx' (Resolved audioBuffer) currentTime'] s1)
      = scheduled s1 ++ [(Qmax currentTime' (nextStartTimeRef s1), duration audioBuffer)]).
Proof.
  intros s1 failed.
  assert (Hfail : step K R failed s1 = s1) by reflexivity.
  split; [exact Hfail|].
  assert (Hs1 : s1 = s \/
                s1 = with_effects (effects s ++ [SetIsAiSpeaking true])
                                  (with_isAiSpeaking true s)).
  { subst s1; unfold step, dispatch, onmessage, bind.
    destruct (truthy (base64Audio msg)); [right|left; reflexivity].
    cbn. destruct (outputAudioContextRef s); reflexivity. }
  split; [|split; [|split; [|split]]].
  - destruct Hs1 as [->| ->]; reflexivity.
  - destruct Hs1 as [->| ->]; reflexivity.
  - destruct Hs1 as [->| ->]; [left|right]; reflexivity.
  - intro rest. reflexivity.
  - intros outputCtx' audioBuffer currentTime'.
    change (run K R [failed; OnMessageDecoded outputCtx' (Resolved audioBuffer) currentTime'] s1)
      with (step K R (OnMessageDecoded outputCtx' (Resolved audioBuffer) currentTime')
                 (step K R failed s1)).
    rewrite Hfail.
    exact (proj1 (step_streaming K R
             (OnMessageDecoded outputCtx' (Resolved audioBuffer) currentTime') s1 eq_refl)).
Qed.

(** ** Single flight *)

(** C3, as stated, fails: while the first start attempt is still
    acquiring its devices the INITIALIZE button is on the page, and a
    second click replaces both audio contexts of the attempt in flight. *)
Lemma start_while_connecting_disturbs : ~ single_flight sample_key sample_rate.
Proof.
  intro H. specialize (H connecting None None eq_refl).
  vm_compute in H. discriminate H.
Qed.

(** C3, amended.  While the component is connected the page shows
    TERMINATE in place of INITIALIZE: a start request reaches no handler
    and the component, the running session included, is left as it is. *)
Theorem start_while_connected_noop (K : option string) (R : Z) (s : App)
    (ctorIn ctorOut : option JsError) :
  isConnected s = true ->
  control s = TERMINATE /\
  step K R (ClickInitialize ctorIn ctorOut) s = s.
Proof.
  intro H. unfold step, dispatch, bind, get, control. rewrite H. split; reflexivity.
Qed.

Lemma start_while_connected_noop_witness :
  isConnected active = true /\
  control active = TERMINATE /\
  step sample_key sample_rate (ClickInitialize None None) active = active.
Proof.
  split; [reflexivity|].
  apply (start_while_connected_noop sample_key sample_rate active None None).
  reflexivity.
Defined.

(** ** A start attempt that fails *)

Lemma or_else_nonempty (o : option string) (dflt : string) :
  dflt <> "" -> or_else o dflt <> "".
Proof. destruct o as [[|c m]|]; cbn; intros H; try exact H; discriminate. Qed.

Lemma catch_start_eq (err : JsError) (s : App) :
  catch_start err s
  = Returned tt
      (stopped
         (with_effects
            ((effects s ++ [ConsoleError "Initialization Error:" err])
               ++ [SetError (Some (or_else (message err) "Failed to initialize."))])
            (with_error (Some (or_else (message err) "Failed to initialize."))
               (with_effects (effects s ++ [ConsoleError "Initialization Error:" err]) s)))).
Proof.
  unfold catch_start.
  erewrite bind_returned by reflexivity.
  erewrite bind_returned by reflexivity.
  apply stopSession_eq.
Qed.

(** C5.  Whatever stretch of [startSession] throws (the key check, a
    context constructor, the rejected [getUserMedia], the input chain, the
    rejected connection), and whatever the state it throws in, the attempt
    returns with the component disconnected, the AI-speaking flag down,
    volume and cursor at 0, no stream, node, context, channel or animation
    handle held, and a non-empty error message set: the message of the
    thrown error, or "Failed to initialize." when it has none. *)
Theorem start_failure_cleans_up (K : option string) (R : Z) (st : Stretch)
    (s : App) (err : JsError) (s1 : App) :
  try_block K R st (final (prologue st s)) = Thrown err s1 ->
  exists s',
    startSession_stretch K R st s = Returned tt s' /\
    isConnected s' = false /\
    held s' = false /\
    idle s' = true /\
    isAiSpeaking s' = false /\ volume s' = 0 /\ nextStartTimeRef s' = 0 /\
    error s' = Some (or_else (message err) "Failed to initialize.") /\
    or_else (message err) "Failed to initialize." <> "".
Proof.
  intro Hthrow. unfold startSession_stretch.
  assert (Hpro : prologue st s = Returned tt (final (prologue st s)))
    by (destruct st; reflexivity).
  erewrite bind_returned by exact Hpro.
  unfold try_catch. rewrite Hthrow, catch_start_eq.
  eexists; split; [reflexivity|].
  repeat split. apply or_else_nonempty. discriminate.
Qed.

(** The user refuses the microphone while the attempt is connecting. *)
Lemma start_failure_cleans_up_witness :
  exists s',
    step sample_key sample_rate
         (StreamSettled (Rejected (Error "Permission denied")) None) connecting = s' /\
    isConnected s' = false /\ held s' = false /\
    error s' = Some "Permission denied".
Proof.
  destruct (start_failure_cleans_up sample_key sample_rate
              (Stream (Rejected (Error "Permission denied")) None)
              connecting (Error "Permission denied") connecting eq_refl)
    as [s' [Hrun [Hconn [Hheld [_ [_ [_ [_ [Herr _]]]]]]]]].
  exists s'. unfold step, dispatch. rewrite Hrun.
  repeat split; assumption.
Defined.

(** ** The volume meter *)

Lemma bin_nonneg (b : byte) : 0 <= bin b.
Proof.
  unfold bin. change 0 with (inject_Z 0). rewrite <- Zle_Qle. lia.
Qed.

(** The accumulator of the [for] loop holds the integer sum of the bins. *)
Lemma sum_loop (dataArray : list byte) (acc : Q) :
  fold_left (fun sum b => sum + bin b) dataArray acc
  == acc + inject_Z (total dataArray).
Proof.
  revert acc; induction dataArray as [|b l IH]; intro acc; cbn [fold_left].
  - unfold total; cbn [map fold_right]. change (inject_Z 0) with 0. lra.
  - rewrite IH. unfold total; cbn [map fold_right]; fold (total l).
    rewrite inject_Z_plus. unfold bin. lra.
Qed.

Lemma total_nonneg (bins : list byte) : (0 <= total bins)%Z.
Proof.
  induction bins as [|b l IH]; unfold total; cbn [map fold_right].
  - lia.
  - fold (total l); lia.
Qed.

Lemma mean_nonneg (bins : list byte) : 0 <= mean bins.
Proof.
  unfold mean, Qdiv. apply Qmult_le_0_compat.
  - change 0 with (inject_Z 0). rewrite <- Zle_Qle. apply total_nonneg.
  - apply Qinv_le_0_compat. change 0 with (inject_Z 0). rewrite <- Zle_Qle. lia.
Qed.

(** C7.  With an analyser in place and at least one bin, one run of
    [updateVolume] returns and sets the volume to a value equal to
    [min(mean / 100, 1)], the mean being the sum of the bins over their
    number; that value is a function of the bins alone and lies between
    0 and 1. *)
Theorem updateVolume_mean_clamped (dataArray : list byte) (s : App) (analyser : positive) :
  analyserRef s = Some analyser ->
  dataArray <> [] ->
  exists s' v,
    updateVolume dataArray s = Returned tt s' /\
    volume s' = v /\
    In (SetVolume v) (effects s') /\
    v == Qmin (mean dataArray / 100) 1 /\
    0 <= v /\ v <= 1.
Proof.
  intros Han Hne. unfold updateVolume.
  erewrite bind_returned by reflexivity. rewrite Han. cbn [when_some].
  erewrite bind_returned by reflexivity.
  erewrite bind_returned by reflexivity.
  erewrite bind_returned by reflexivity.
  set (sum := fold_left (fun sum b => sum + bin b) dataArray 0).
  set (v := Qmin (sum / inject_Z (Z.of_nat (List.length dataArray)) / 100) 1).
  exists (with_animationFrameRef (Some (nextId s))
       (with_effects
          ((effects s ++ [SetVolume v]) ++ [RequestAnimationFrame (nextId s)])
          (with_nextId (Pos.succ (nextId s)) (with_volume v s)))), v.
  assert (Hsum : sum == inject_Z (total dataArray))
    by (subst sum; rewrite sum_loop; lra).
  assert (Hv : v == Qmin (mean dataArray / 100) 1)
    by (subst v; unfold mean; rewrite Hsum; reflexivity).
  split; [destruct s; reflexivity|].
  split; [reflexivity|].
  split; [cbn; rewrite !in_app_iff; cbn; auto|].
  split; [exact Hv|].
  rewrite Hv. split.
  - apply Q.min_glb; [|lra].
    pose proof (mean_nonneg dataArray) as Hm.
    unfold Qdiv. apply Qmult_le_0_compat; [exact Hm|]. discriminate.
  - apply Q.le_min_r.
Qed.

Lemma updateVolume_mean_clamped_witness :
  analyserRef active = Some 4%positive /\
  sample_bins <> [] /\
  exists s' v,
    updateVolume sample_bins active = Returned tt s' /\
    volume s' = v /\
    In (SetVolume v) (effects s') /\
    v == Qmin (mean sample_bins / 100) 1 /\
    0 <= v /\ v <= 1.
Proof.
  split; [reflexivity|].
  split; [discriminate|].
  apply (updateVolume_mean_clamped sample_bins active 4%positive);
    [reflexivity|discriminate].
Defined.

(** ** The error message *)

(** The body of the later stretches of [startSession] does not touch the
    error message, whether it returns or throws. *)
Lemma try_block_error (K : option string) (R : Z) (st : Stretch) (s : App) :
  error (final (try_block K R st s)) = error s.
Proof.
  destruct st as [ctorIn ctorOut|settled graph|processor settled dataArray];
    unfold try_block.
  - unfold try_contexts, newAudioContext, bind.
    destruct (truthy K), ctorIn, ctorOut; reflexivity.
  - unfold try_stream, bind.
    destruct settled; [|reflexivity].
    cbn. destruct (inputAudioContextRef s); [|reflexivity].
    destruct graph; reflexivity.
  - unfold try_session, updateVolume, bind.
    destruct settled; [|reflexivity].
    cbn -[Qmin Qdiv fold_left]. destruct (analyserRef s); reflexivity.
Qed.

Lemma stretch_error (K : option string) (R : Z) (st : Stretch) (s : App) :
  error (final (try_catch (try_block K R st) catch_start s)) = error s
  \/ exists m, error (final (try_catch (try_block K R st) catch_start s)) = Some m.
Proof.
  unfold try_catch. pose proof (try_block_error K R st s) as H.
  destruct (try_block K R st s) as [[] s'|err s']; cbn [final] in *.
  - left; exact H.
  - right. rewrite catch_start_eq. eexists; reflexivity.
Qed.

(** Everything the try block and its handler call comes after the calls
    already made. *)
Lemma try_contexts_calls (K : option string) (R : Z) (ctorIn ctorOut : option JsError)
    (s : App) :
  exists calls,
    effects (final (try_catch (try_contexts K R ctorIn ctorOut) catch_start s))
    = effects s ++ calls.
Proof.
  unfold try_catch.
  destruct (try_contexts K R ctorIn ctorOut s) as [[] s'|err s'] eqn:E.
  - revert E. unfold try_contexts, newAudioContext, bind.
    destruct (truthy K), ctorIn, ctorOut; try discriminate.
    cbn. intro E; injection E as <-. cbn.
    repeat rewrite <- app_assoc. eexists; reflexivity.
  - rewrite catch_start_eq. cbn [final stopped effects with_effects].
    revert E. unfold try_contexts, newAudioContext, bind.
    destruct (truthy K), ctorIn, ctorOut; cbn; intro E; try discriminate;
      injection E as <- <-; cbn;
      repeat rewrite <- app_assoc; eexists; reflexivity.
Qed.

(** C10.  [stopSession] resets the connected flag, the AI-speaking flag
    and the volume and leaves the error message as it was.  The first
    call of [startSession] is [setError(null)].  No other event clears a
    message that is set: if an event takes the message from set to null,
    that event is a click on INITIALIZE while the component is not
    connected. *)
Theorem error_survives_cleanup (K : option string) (R : Z) (s : App) :
  (exists s',
      stopSession s = Returned tt s' /\
      error s' = error s /\
      isConnected s' = false /\ isAiSpeaking s' = false /\ volume s' = 0) /\
  (forall ctorIn ctorOut,
      exists calls,
        effects (final (startSession K R ctorIn ctorOut s))
        = effects s ++ SetError None :: calls) /\
  (forall e,
      error s <> None -> error (step K R e s) = None ->
      isConnected s = false /\ exists ctorIn ctorOut, e = ClickInitialize ctorIn ctorOut).
Proof.
  split; [|split].
  - exists (stopped s). rewrite stopSession_eq. repeat split.
  - intros ctorIn ctorOut.
    unfold startSession, startSession_stretch, prologue, try_block.
    erewrite bind_returned by reflexivity.
    match goal with
    | |- context [try_catch _ _ ?s0] =>
        destruct (try_contexts_calls K R ctorIn ctorOut s0) as [calls Hcalls]
    end.
    exists calls. rewrite Hcalls. cbn. rewrite <- app_assoc. reflexivity.
  - intros e Hset Hnull.
    destruct e; unfold step, dispatch in Hnull.
    + (* INITIALIZE *)
      revert Hnull. unfold bind, get, control.
      destruct (isConnected s); cbn [negb]; intro Hnull.
      * contradiction.
      * split; [reflexivity|]. eexists; eexists; reflexivity.
    + (* TERMINATE *)
      revert Hnull. unfold bind, get, control.
      destruct (isConnected s); cbn [negb]; [rewrite stopSession_eq|]; intro Hnull;
        contradiction.
    + (* unmount *)
      rewrite stopSession_eq in Hnull. contradiction.
    + (* getUserMedia settled *)
      unfold startSession_stretch, prologue in Hnull.
      erewrite bind_returned in Hnull by reflexivity.
      destruct (stretch_error K R (Stream settled graph) s) as [H|[m H]];
        rewrite H in Hnull; [contradiction|discriminate].
    + (* connection settled *)
      unfold startSession_stretch, prologue in Hnull.
      erewrite bind_returned in Hnull by reflexivity.
      destruct (stretch_error K R (Live processor settled dataArray) s) as [H|[m H]];
        rewrite H in Hnull; [contradiction|discriminate].
    + contradiction.
    + contradiction.
    + (* onmessage *)
      revert Hnull. unfold onmessage, bind.
      destruct (truthy (base64Audio msg)); [|intro; contradiction].
      cbn. destruct (outputAudioContextRef s); intro; contradiction.
    + (* decoded *)
      destruct audioBuffer.
      * rewrite onmessage_decoded_eq in Hnull. contradiction.
      * contradiction.
    + (* onended *)
      revert Hnull. unfold onended, bind, get.
      destruct (Qle_bool _ _); intro; contradiction.
    + (* onclose *)
      unfold onclose in Hnull.
      erewrite bind_returned in Hnull by reflexivity.
      rewrite stopSession_eq in Hnull. contradiction.
    + (* onerror *)
      unfold onerror in Hnull.
      erewrite bind_returned in Hnull by reflexivity.
      erewrite bind_returned in Hnull by reflexivity.
      rewrite stopSession_eq in Hnull. discriminate.
    + (* updateVolume *)
      revert Hnull. unfold updateVolume, bind, get.
      destruct (analyserRef s); intro; contradiction.
    + contradiction.
Qed.

(** ** A session from start to stop *)

(** The sample session runs as the source reads: contexts, stream, input
    chain, channel, meter; then a stop whose [close()] throws. *)
Example sample_session_calls :
  effects (step sample_key sample_rate ClickTerminate active)
  = [SetError None; NewAudioContext 1 16000; NewAudioContext 2 24000; GetUserMedia;
     CreateNode 1 3; CreateNode 1 4; CreateNode 1 5;
     NodeConnect 3 4; NodeConnect 4 5; NodeConnect 5 1;
     LiveConnect MODEL_NAME "Fenrir";
     ConsoleLog "Gemini Live Session Opened"; SetIsConnected true;
     SetOnAudioProcess 5; SetVolume (335 # 400); RequestAnimationFrame 6;
     SessionClose 200;
     ConsoleWarn "Error closing session"
                 (Error "WebSocket is already in CLOSING or CLOSED state.");
     TrackStop 101; NodeDisconnect 5; NodeDisconnect 3;
     ContextClose 1; ContextClose 2; CancelAnimationFrame 6;
     SetIsConnected false; SetIsAiSpeaking false; SetVolume 0].
Proof. reflexivity. Qed.

(** A message set by a failure is still there after cleanup, and the next
    click on INITIALIZE takes it away. *)
Example message_cleared_by_next_start :
  let failed := step sample_key sample_rate
                     (StreamSettled (Rejected (Error "Permission denied")) None)
                     connecting in
  error failed = Some "Permission denied"
  /\ error (step sample_key sample_rate Unmount failed) = Some "Permission denied"
  /\ error (step sample_key sample_rate (ClickInitialize None None) failed) = None.
Proof. repeat split. Qed.

(** * Further properties of the code *)

(** ** The timeline over a whole run *)

Lemma spec_schedule_starts (reqs : list (Q * Q)) (c : Q) :
  Forall2 (fun r seg => fst r <= fst seg /\ snd seg = snd r)
          reqs (fst (spec_schedule c reqs)).
Proof.
  revert c; induction reqs as [|[now dur] reqs IH]; intro c; cbn [spec_schedule].
  - constructor.
  - unfold spec_enqueue. specialize (IH (Qmax now c + dur)).
    destruct (spec_schedule (Qmax now c + dur) reqs) as [segments last]; cbn [fst snd] in *.
    constructor; cbn [fst snd].
    + split; [apply Q.le_max_l|reflexivity].
    + exact IH.
Qed.

(** X1.  Over a run of an active session, one segment is started for each
    decode that succeeded, in the order of the decodes, with the duration
    of the decoded buffer, and never before the reading of the output
    clock at which it was scheduled. *)
Theorem segments_never_in_the_past (K : option string) (R : Z)
    (es : list Event) (s : App) :
  forallb streaming es = true ->
  exists segments,
    scheduled (run K R es s) = scheduled s ++ segments /\
    Forall2 (fun r seg => fst r <= fst seg /\ snd seg = snd r) (requests es) segments.
Proof.
  intro Hs. destruct (run_streaming K R es s Hs) as [Hsched _].
  eexists; split; [exact Hsched|].
  apply spec_schedule_starts.
Qed.

Lemma segments_never_in_the_past_witness :
  exists segments,
    scheduled (run sample_key sample_rate two_segments active)
    = scheduled active ++ segments /\
    Forall2 (fun r seg => fst r <= fst seg /\ snd seg = snd r)
            (requests two_segments) segments.
Proof.
  apply (segments_never_in_the_past sample_key sample_rate two_segments active).
  reflexivity.
Defined.

Lemma spec_schedule_consecutive (reqs : list (Q * Q)) (c : Q) (i : nat)
    (a b r : Q * Q) :
  nth_error (fst (spec_schedule c reqs)) i = Some a ->
  nth_error (fst (spec_schedule c reqs)) (S i) = Some b ->
  nth_error reqs (S i) = Some r ->
  fst b = Qmax (fst r) (fst a + snd a).
Proof.
  revert c i; induction reqs as [|[now dur] reqs IH]; intros c i Ha Hb Hr.
  - destruct i; discriminate.
  - cbn [spec_schedule] in Ha, Hb. unfold spec_enqueue in Ha, Hb.
    specialize (IH (Qmax now c + dur)).
    destruct (spec_schedule (Qmax now c + dur) reqs) as [segments last] eqn:E;
      cbn [fst snd] in *.
    destruct i as [|i].
    + cbn in Ha, Hb, Hr. injection Ha as <-.
      destruct reqs as [|[now' dur'] reqs]; [discriminate|].
      injection Hr as <-.
      cbn [spec_schedule] in E. unfold spec_enqueue in E.
      destruct (spec_schedule (Qmax now' (Qmax now c + dur) + dur') reqs).
      injection E as <- _. cbn in Hb. injection Hb as <-. reflexivity.
    + cbn in Ha, Hb, Hr. exact (IH i Ha Hb Hr).
Qed.

(** X2.  Playback is gapless and never late within a run: of two
    segments scheduled one after the other, the later one starts exactly
    when the earlier one ends if it was scheduled before that end, and
    exactly at the clock reading if the earlier one had already ended. *)
Theorem consecutive_segments_gapless (K : option string) (R : Z)
    (es : list Event) (s : App) :
  forallb streaming es = true ->
  exists segments,
    scheduled (run K R es s) = scheduled s ++ segments /\
    forall i a b r,
      nth_error segments i = Some a ->
      nth_error segments (S i) = Some b ->
      nth_error (requests es) (S i) = Some r ->
      (fst r <= fst a + snd a -> fst b == fst a + snd a) /\
      (fst a + snd a <= fst r -> fst b == fst r).
Proof.
  intro Hs. destruct (run_streaming K R es s Hs) as [Hsched _].
  eexists; split; [exact Hsched|].
  intros i a b r Ha Hb Hr.
  rewrite (spec_schedule_consecutive _ _ _ _ _ _ Ha Hb Hr).
  split; intro H; [apply Q.max_r|apply Q.max_l]; exact H.
Qed.

Lemma consecutive_segments_gapless_witness :
  exists segments,
    scheduled (run sample_key sample_rate two_segments active)
    = scheduled active ++ segments /\
    forall i a b r,
      nth_error segments i = Some a ->
      nth_error segments (S i) = Some b ->
      nth_error (requests two_segments) (S i) = Some r ->
      (fst r <= fst a + snd a -> fst b == fst a + snd a) /\
      (fst a + snd a <= fst r -> fst b == fst r).
Proof.
  apply (consecutive_segments_gapless sample_key sample_rate two_segments active).
  reflexivity.
Defined.

Lemma spec_schedule_total (reqs : list (Q * Q)) (c : Q) :
  Forall (fun r => 0 <= snd r) reqs ->
  c + total_duration reqs <= snd (spec_schedule c reqs)
  /\ (Forall (fun r => fst r <= c) reqs ->
      snd (spec_schedule c reqs) == c + total_duration reqs).
Proof.
  revert c; induction reqs as [|[now dur] reqs IH]; intros c Hpos.
  - cbn. split; [lra|intros _; lra].
  - inversion Hpos as [|? ? Hdur Hrest]; subst; cbn [snd] in Hdur.
    cbn [spec_schedule total_duration fold_right snd]; unfold spec_enqueue.
    fold (total_duration reqs).
    destruct (IH (Qmax now c + dur) Hrest) as [Hle Heq].
    destruct (spec_schedule (Qmax now c + dur) reqs) as [segments last];
      cbn [fst snd] in *.
    pose proof (Q.le_max_r now c) as Hc.
    split; [lra|].
    intro Hearly. inversion Hearly as [|? ? Hnow Hrest']; subst; cbn [fst] in Hnow.
    pose proof (Q.max_r now c Hnow) as Hmax.
    rewrite Heq; [lra|].
    eapply Forall_impl; [|exact Hrest']. cbn; intros r Hr. lra.
Qed.

(** X3.  The audio queued by a run is never cut short: with no negative
    duration, the cursor moves forward by at least the sum of the
    durations decoded; and when every decode arrives no later than the
    cursor stood at the start (a burst received while audio is pending),
    it moves forward by exactly that sum. *)
Theorem cursor_advances_by_durations (K : option string) (R : Z)
    (es : list Event) (s : App) :
  forallb streaming es = true ->
  Forall (fun r => 0 <= snd r) (requests es) ->
  nextStartTimeRef s + total_duration (requests es) <= nextStartTimeRef (run K R es s)
  /\ (Forall (fun r => fst r <= nextStartTimeRef s) (requests es) ->
      nextStartTimeRef (run K R es s)
      == nextStartTimeRef s + total_duration (requests es)).
Proof.
  intros Hs Hpos. destruct (run_streaming K R es s Hs) as [_ Hcur].
  rewrite Hcur. apply spec_schedule_total; exact Hpos.
Qed.

Lemma cursor_advances_by_durations_witness :
  nextStartTimeRef active + total_duration (requests two_segments)
  <= nextStartTimeRef (run sample_key sample_rate two_segments active).
Proof.
  apply (cursor_advances_by_durations sample_key sample_rate two_segments active).
  - reflexivity.
  - repeat constructor; discriminate.
Defined.

Lemma spec_schedule_nil (reqs : list (Q * Q)) (c : Q) :
  fst (spec_schedule c reqs) = [] -> reqs = [].
Proof.
  destruct reqs as [|[now dur] reqs]; [reflexivity|].
  cbn [spec_schedule]; unfold spec_enqueue.
  destruct (spec_schedule (Qmax now c + dur) reqs); discriminate.
Qed.

Lemma spec_schedule_last (reqs : list (Q * Q)) (c : Q) (front : list (Q * Q))
    (seg : Q * Q) :
  fst (spec_schedule c reqs) = front ++ [seg] ->
  snd (spec_schedule c reqs) = fst seg + snd seg.
Proof.
  revert c front; induction reqs as [|[now dur] reqs IH]; intros c front H.
  - destruct front; discriminate.
  - cbn [spec_schedule] in *. unfold spec_enqueue in *.
    specialize (IH (Qmax now c + dur)).
    destruct (spec_schedule (Qmax now c + dur) reqs) as [segments last] eqn:E;
      cbn [fst snd] in *.
    destruct front as [|seg1 front].
    + injection H as <- Hnil.
      assert (Hreqs : reqs = []).
      { apply (spec_schedule_nil reqs (Qmax now c + dur)). rewrite E. exact Hnil. }
      subst reqs. cbn in E. injection E as _ <-. reflexivity.
    + injection H as _ Hrest. exact (IH front Hrest).
Qed.

(** X4.  After a run of an active session the cursor is the end of the
    segment scheduled last, so the completion callback of that segment,
    firing no earlier than 0.1 s before the segment's end, lowers the
    AI-speaking flag. *)
Theorem flag_lowered_after_last_segment (K : option string) (R : Z)
    (es : list Event) (s : App) (front : list (Q * Q)) (seg : Q * Q) (t : Q) :
  forallb streaming es = true ->
  fst (spec_schedule (nextStartTimeRef s) (requests es)) = front ++ [seg] ->
  t >= fst seg + snd seg - 0.1 ->
  scheduled (run K R es s) = scheduled s ++ front ++ [seg] /\
  nextStartTimeRef (run K R es s) = fst seg + snd seg /\
  isAiSpeaking (step K R (OnEnded t) (run K R es s)) = false.
Proof.
  intros Hs Hlast Ht. destruct (run_streaming K R es s Hs) as [Hsched Hcur].
  rewrite Hlast in Hsched. rewrite (spec_schedule_last _ _ _ _ Hlast) in Hcur.
  split; [exact Hsched|]. split; [exact Hcur|].
  unfold step, dispatch, onended, bind, get. rewrite Hcur.
  apply Qle_bool_iff in Ht. rewrite Ht. reflexivity.
Qed.

Lemma flag_lowered_after_last_segment_witness :
  isAiSpeaking
    (step sample_key sample_rate (OnEnded 2)
          (run sample_key sample_rate two_segments active)) = false.
Proof.
  apply (flag_lowered_after_last_segment sample_key sample_rate two_segments active
           [(0, 1)] (1, 1) 2); [reflexivity|reflexivity|discriminate].
Defined.

(** ** Every handler in closed form *)

Lemma catch_start_caught (err : JsError) (s : App) :
  catch_start err s = Returned tt (caught err s).
Proof. rewrite catch_start_eq. reflexivity. Qed.

Lemma updateVolume_eq (dataArray : list byte) (s : App) :
  updateVolume dataArray s = Returned tt (metered dataArray s).
Proof.
  unfold updateVolume, metered, level, bind, get.
  destruct (analyserRef s); reflexivity.
Qed.

Lemma stretch_eq (K : option string) (R : Z) (st : Stretch) (s : App) :
  startSession_stretch K R st s = Returned tt (after_stretch K R st s).
Proof.
  unfold startSession_stretch.
  destruct st as [ctorIn ctorOut|settled graph|processor settled dataArray];
    cbn [prologue try_block after_stretch].
  - erewrite bind_returned by reflexivity.
    unfold try_catch, try_contexts, newAudioContext, bind.
    destruct (truthy K), ctorIn, ctorOut;
      cbn [attempt throw ret fresh emit modify];
      try rewrite catch_start_caught; destruct s; vm_compute; reflexivity.
  - erewrite bind_returned by reflexivity.
    unfold try_catch, try_stream, createNode, bind.
    destruct settled as [stream|e]; cbn [await throw ret modify get].
    + destruct (inputAudioContextRef s) as [inputCtx|] eqn:Hctx;
        cbn [inputAudioContextRef with_inputMediaStreamRef]; rewrite Hctx;
        cbn [deref throw ret].
      * destruct graph as [e|]; cbn [attempt throw ret fresh emit modify];
          try rewrite catch_start_caught; destruct s; vm_compute; reflexivity.
      * rewrite catch_start_caught; reflexivity.
    + rewrite catch_start_caught; reflexivity.
  - erewrite bind_returned by reflexivity.
    unfold try_catch, try_session.
    destruct settled as [session|e].
    + erewrite bind_returned by reflexivity.
      erewrite bind_returned by reflexivity.
      erewrite bind_returned by reflexivity.
      rewrite updateVolume_eq. reflexivity.
    + apply catch_start_caught.
Qed.

Lemma step_eq (K : option string) (R : Z) (e : Event) (s : App) :
  step K R e s = after K R e s.
Proof.
  unfold step, dispatch; destruct e; cbn [after].
  - unfold bind, get, control. destruct (isConnected s); cbn [negb final].
    + reflexivity.
    + unfold startSession. rewrite stretch_eq. reflexivity.
  - unfold bind, get, control. destruct (isConnected s); cbn [negb final].
    + rewrite stopSession_eq. reflexivity.
    + reflexivity.
  - rewrite stopSession_eq. reflexivity.
  - rewrite stretch_eq. reflexivity.
  - rewrite stretch_eq. reflexivity.
  - reflexivity.
  - reflexivity.
  - unfold onmessage, bind. destruct (truthy (base64Audio msg)); [|reflexivity].
    cbn. destruct (outputAudioContextRef s); reflexivity.
  - destruct audioBuffer; [rewrite onmessage_decoded_eq|]; reflexivity.
  - unfold onended, bind, get. destruct (Qle_bool _ _); reflexivity.
  - unfold onclose. erewrite bind_returned by reflexivity.
    rewrite stopSession_eq. reflexivity.
  - unfold onerror. erewrite bind_returned by reflexivity.
    erewrite bind_returned by reflexivity.
    rewrite stopSession_eq. reflexivity.
  - rewrite updateVolume_eq. reflexivity.
  - reflexivity.
Qed.

(** What one event can do to the error message, the volume and the
    analyser reference. *)
Lemma after_fields (K : option string) (R : Z) (e : Event) (s : App) :
  (error (after K R e s) = error s \/ error (after K R e s) = None
   \/ exists m, error (after K R e s) = Some m /\ m <> "") /\
  (volume (after K R e s) = volume s \/ volume (after K R e s) = 0
   \/ exists d, (measured e -> d <> []) /\ volume (after K R e s) = level d) /\
  (analyserRef (after K R e s) = analyserRef s
   \/ exists n, analyserRef (after K R e s) = Some n).
Proof.
  assert (Hmsg : forall err, or_else (message err) "Failed to initialize." <> "")
    by (intro err; apply or_else_nonempty; discriminate).
  destruct e as [ctorIn ctorOut| | |settled graph|processor settled dataArray
                | |session|msg|outputCtx audioBuffer currentTime|currentTime
                | |err|dataArray|session];
    cbn [after after_stretch measured].
  all: repeat match goal with
       | |- context [if ?b then _ else _] => destruct b
       | |- context [match ?o with Some _ => _ | None => _ end] => destruct o
       | |- context [match ?o with Resolved _ => _ | Rejected _ => _ end] => destruct o
       end;
       unfold adopted, metered;
       cbn [analyserRef called with_effects with_aiSessionRef];
       try (destruct (analyserRef s) eqn:Han).
  all: (split; [|split]); cbn; try rewrite Han; eauto.
  all: right; right; eexists; split; [reflexivity|first [discriminate|apply Hmsg]].
Qed.

(** ** What every reachable state satisfies *)

Lemma level_mean (dataArray : list byte) :
  level dataArray == Qmin (mean dataArray / 100) 1.
Proof.
  unfold level, mean. rewrite sum_loop.
  assert (E : 0 + inject_Z (total dataArray) == inject_Z (total dataArray)) by lra.
  rewrite E. reflexivity.
Qed.

Lemma level_range (dataArray : list byte) :
  0 <= level dataArray /\ level dataArray <= 1.
Proof.
  rewrite level_mean. split.
  - apply Q.min_glb; [|lra].
    pose proof (mean_nonneg dataArray) as Hm.
    unfold Qdiv. apply Qmult_le_0_compat; [exact Hm|discriminate].
  - apply Q.le_min_r.
Qed.

Lemma run_volume_range (K : option string) (R : Z) (es : list Event) (s : App) :
  Forall measured es ->
  0 <= volume s /\ volume s <= 1 ->
  0 <= volume (run K R es s) /\ volume (run K R es s) <= 1.
Proof.
  revert s; induction es as [|e es IH]; intros s Hes Hs; [exact Hs|].
  inversion Hes as [|? ? He Hes']; subst.
  change (run K R (e :: es) s) with (run K R es (step K R e s)).
  apply IH; [exact Hes'|]. rewrite step_eq.
  destruct (after_fields K R e s) as [_ [[Hv|[Hv|[d [_ Hv]]]] _]]; rewrite Hv.
  - exact Hs.
  - split; [apply Qle_refl|discriminate].
  - apply level_range.
Qed.

(** X5.  The volume stays within 0..1: if it is there before a run of
    events (it is 0 when the component is first rendered), it is there
    after it, whatever the events, as long as each meter run reads at
    least one bin. *)
Theorem volume_stays_in_range (K : option string) (R : Z) (es : list Event) (s : App) :
  Forall measured es ->
  0 <= volume s /\ volume s <= 1 ->
  0 <= volume (run K R es s) /\ volume (run K R es s) <= 1.
Proof. exact (run_volume_range K R es s). Qed.

Lemma volume_stays_in_range_witness :
  0 <= volume active /\ volume active <= 1.
Proof.
  apply (volume_stays_in_range sample_key sample_rate
           [StreamSettled (Resolved sample_stream) None; OnOpen;
            SessionSettled 5 (Resolved sample_session) sample_bins] connecting).
  - repeat constructor; discriminate.
  - split; vm_compute; discriminate.
Defined.

Lemma run_error_nonempty (K : option string) (R : Z) (es : list Event) (s : App) :
  error s <> Some "" ->
  error (run K R es s) <> Some "".
Proof.
  revert s; induction es as [|e es IH]; intros s Hs; [exact Hs|].
  change (run K R (e :: es) s) with (run K R es (step K R e s)).
  apply IH. rewrite step_eq.
  destruct (after_fields K R e s) as [[He|[He|[m [He Hm]]]] _]; rewrite He.
  - exact Hs.
  - discriminate.
  - intro H; injection H as ->. apply Hm; reflexivity.
Qed.

(** X6.  The error message is never the empty string: no event sets it
    to one. *)
Theorem error_message_never_empty (K : option string) (R : Z) (es : list Event) (s : App) :
  error s <> Some "" ->
  error (run K R es s) <> Some "".
Proof. exact (run_error_nonempty K R es s). Qed.

Lemma error_message_never_empty_witness :
  error (run sample_key sample_rate [OnError (Error "")] active) <> Some "".
Proof.
  apply (error_message_never_empty sample_key sample_rate [OnError (Error "")] active).
  vm_compute. discriminate.
Defined.

(** X7.  Once an analyser is referenced it stays referenced: no event,
    cleanup included, sets [analyserRef] back to null. *)
Theorem analyser_never_cleared (K : option string) (R : Z) (es : list Event) (s : App) :
  analyserRef s <> None ->
  analyserRef (run K R es s) <> None.
Proof.
  revert s; induction es as [|e es IH]; intros s Hs; [exact Hs|].
  change (run K R (e :: es) s) with (run K R es (step K R e s)).
  apply IH. rewrite step_eq.
  destruct (after_fields K R e s) as [_ [_ [Ha|[n Ha]]]]; rewrite Ha.
  - exact Hs.
  - discriminate.
Qed.

Lemma analyser_never_cleared_witness :
  analyserRef (run sample_key sample_rate [ClickTerminate; Unmount] active) <> None.
Proof.
  apply (analyser_never_cleared sample_key sample_rate [ClickTerminate; Unmount] active).
  vm_compute. discriminate.
Defined.

(** ** What the page shows *)

(** X8.  The status line shows exactly one thing in every state a run of
    events reaches from a state whose message is not the empty string:
    the error message when one is set; otherwise "Elliot Speaking..." or
    "Listening..." while connected, and "System Offline" while not. *)
Theorem status_line_shows_one_block (K : option string) (R : Z)
    (es : list Event) (s : App) :
  error s <> Some "" ->
  let s' := run K R es s in
  match error s' with
  | Some m =>
      error_box s' = Some m /\ status_text s' = None /\ offline_text s' = None
  | None =>
      error_box s' = None /\
      if isConnected s'
      then status_text s'
           = Some (if isAiSpeaking s' then "Elliot Speaking..." else "Listening...")
           /\ offline_text s' = None
      else status_text s' = None /\ offline_text s' = Some "System Offline"
  end.
Proof.
  intros Hs s'. pose proof (run_error_nonempty K R es s Hs) as Hne.
  fold s' in Hne. unfold error_box, status_text, offline_text.
  destruct (error s') as [[|c m]|]; cbn.
  - contradiction Hne; reflexivity.
  - repeat split.
  - destruct (isConnected s'); repeat split.
Qed.

Lemma status_line_shows_one_block_witness :
  let s' := run sample_key sample_rate [OnError (Error "")] active in
  match error s' with
  | Some m =>
      error_box s' = Some m /\ status_text s' = None /\ offline_text s' = None
  | None =>
      error_box s' = None /\
      if isConnected s'
      then status_text s'
           = Some (if isAiSpeaking s' then "Elliot Speaking..." else "Listening...")
           /\ offline_text s' = None
      else status_text s' = None /\ offline_text s' = Some "System Offline"
  end.
Proof.
  apply (status_line_shows_one_block sample_key sample_rate [OnError (Error "")] active).
  vm_compute. discriminate.
Defined.

(** X9.  The orb, for a volume within 0..1.  Active, its scale lies
    between 1 and 2.5 and reaches 2.5 at volume 1, its glow opacity lies
    between 0.6 and 1; inactive, the scale is 1 and the glow opacity 0.2
    whatever the volume.  Every opacity handed to a layer is within
    0..1, and no layer is scaled beyond 3. *)
Theorem orb_within_bounds (p : Orb.OrbProps) :
  0 <= Orb.volume p /\ Orb.volume p <= 1 ->
  (Orb.isActive p = true ->
     1 <= Orb.scale p /\ Orb.scale p <= 2.5 /\
     0.6 <= Orb.glowOpacity p /\ Orb.glowOpacity p <= 1 /\
     (Orb.volume p == 1 -> Orb.scale p == 2.5)) /\
  (Orb.isActive p = false -> Orb.scale p = 1 /\ Orb.glowOpacity p = 0.2) /\
  (forall layer o,
      In layer [Orb.outerGlow p; Orb.innerGlow p; Orb.core p] ->
      (Orb.opacity layer = Some o -> 0 <= o /\ o <= 1) /\
      1 <= Orb.transform layer /\ Orb.transform layer <= 3).
Proof.
  intros [Hlo Hhi].
  unfold Orb.outerGlow, Orb.innerGlow, Orb.core, Orb.scale, Orb.glowOpacity.
  split; [|split].
  - intros ->.
    split; [lra|split; [lra|split; [lra|split; [lra|intro H; lra]]]].
  - intros ->. split; reflexivity.
  - intros layer o [<-|[<-|[<-|[]]]]; cbn [Orb.opacity Orb.transform];
      destruct (Orb.isActive p);
      (split; [intro H; try discriminate; injection H as <-|]); lra.
Qed.

Lemma orb_within_bounds_witness :
  Orb.scale (Orb.mkOrbProps true 1 false) == 2.5.
Proof.
  destruct (orb_within_bounds (Orb.mkOrbProps true 1 false)) as [H _].
  - split; discriminate.
  - apply H; reflexivity.
Defined.

(** X10.  The orb grows and brightens with the volume: of two active
    orbs, the louder one has the larger scale and glow opacity; the core
    colour depends on the AI-speaking flag alone. *)
Theorem orb_monotone (p q : Orb.OrbProps) :
  Orb.isActive p = true -> Orb.isActive q = true ->
  Orb.volume p <= Orb.volume q ->
  Orb.scale p <= Orb.scale q /\
  Orb.glowOpacity p <= Orb.glowOpacity q /\
  (Orb.isAiSpeaking p = Orb.isAiSpeaking q -> Orb.coreColor p = Orb.coreColor q).
Proof.
  intros Hp Hq Hv. unfold Orb.scale, Orb.glowOpacity, Orb.coreColor.
  rewrite Hp, Hq. repeat split; try lra. intros ->; reflexivity.
Qed.

Lemma orb_monotone_witness :
  Orb.scale (Orb.mkOrbProps true 0.25 false) <= Orb.scale (Orb.mkOrbProps true 0.75 true).
Proof.
  apply (orb_monotone (Orb.mkOrbProps true 0.25 false) (Orb.mkOrbProps true 0.75 true));
    [reflexivity|reflexivity|discriminate].
Defined.

(** X11.  Whatever happens to the component, the orb it draws is within
    those bounds: in every state a run of events reaches from the first
    render, each meter run reading at least one bin, the scale is between
    1 and 2.5 and the glow opacity between 0.2 and 1; and it is at rest
    (scale 1, glow 0.2) whenever the component is not connected. *)
Theorem orb_of_reachable_state (K : option string) (R : Z) (es : list Event) :
  Forall measured es ->
  let p := orb (run K R es initial) in
  1 <= Orb.scale p /\ Orb.scale p <= 2.5 /\
  0.2 <= Orb.glowOpacity p /\ Orb.glowOpacity p <= 1 /\
  (isConnected (run K R es initial) = false ->
   Orb.scale p = 1 /\ Orb.glowOpacity p = 0.2).
Proof.
  intros Hes p.
  assert (Hv : 0 <= volume (run K R es initial) /\ volume (run K R es initial) <= 1).
  { apply run_volume_range; [exact Hes|]. split; discriminate. }
  destruct Hv as [Hlo Hhi].
  subst p. unfold orb, Orb.scale, Orb.glowOpacity; cbn [Orb.isActive Orb.volume].
  destruct (isConnected (run K R es initial)).
  - split; [lra|split; [lra|split; [lra|split; [lra|discriminate]]]].
  - split; [lra|split; [lra|split; [lra|split; [lra|intros _; split; reflexivity]]]].
Qed.

Lemma orb_of_reachable_state_witness :
  Orb.scale (orb (run sample_key sample_rate
                      (successful_start sample_stream 5 sample_session sample_bins)
                      initial)) <= 2.5.
Proof.
  destruct (orb_of_reachable_state sample_key sample_rate
              (successful_start sample_stream 5 sample_session sample_bins))
    as [_ [H _]].
  - repeat constructor; discriminate.
  - exact H.
Defined.

(** ** Ending a session *)

(** X12.  Every way a session ends (the component unmounting, the remote
    side closing the channel, a channel error, a click on TERMINATE while
    it is on the page) runs the whole cleanup on the handles held at that
    moment, and leaves the component idle with INITIALIZE on the page,
    the AI-speaking flag down, volume and cursor at 0 and the orb at
    rest. *)
Theorem every_ending_cleans_up (K : option string) (R : Z) (e : Event) (s : App) :
  ends_session s e = true ->
  let s' := step K R e s in
  (exists before, effects s' = effects s ++ before ++ cleanup_calls s) /\
  idle s' = true /\ control s' = INITIALIZE /\
  isAiSpeaking s' = false /\ volume s' = 0 /\ nextStartTimeRef s' = 0 /\
  Orb.scale (orb s') = 1 /\ Orb.glowOpacity (orb s') = 0.2.
Proof.
  intros He s'. subst s'. rewrite step_eq.
  destruct e; try discriminate; cbn [ends_session] in He; cbn [after].
  - rewrite He. split; [exists []; reflexivity|]. repeat split.
  - split; [exists []; reflexivity|]. repeat split.
  - split; [|repeat split].
    exists [ConsoleLog "Gemini Live Session Closed"].
    cbn. rewrite <- app_assoc. reflexivity.
  - split; [|repeat split].
    exists [ConsoleError "Gemini Live Error:" err;
            SetError (Some "Connection Error. Please try again.")].
    cbn. rewrite <- !app_assoc. reflexivity.
Qed.

Lemma every_ending_cleans_up_witness :
  idle (step sample_key sample_rate ClickTerminate active) = true.
Proof.
  destruct (every_ending_cleans_up sample_key sample_rate ClickTerminate active eq_refl)
    as [_ [H _]].
  exact H.
Defined.

(** X13.  Cleanup is idempotent: a second [stopSession] right after a
    first one releases nothing again; it only repeats the three setter
    calls and leaves every field as the first one left it. *)
Theorem stopSession_idempotent (s : App) :
  exists s1 s2,
    stopSession s = Returned tt s1 /\
    stopSession s1 = Returned tt s2 /\
    s2 = called [SetIsConnected false; SetIsAiSpeaking false; SetVolume 0] s1.
Proof.
  exists (stopped s), (stopped (stopped s)).
  rewrite !stopSession_eq. repeat split.
Qed.

(** X14.  What the user is told when the channel goes away.  A channel
    error always shows "Connection Error. Please try again.", whatever
    the error was (it is only logged) and whatever message was shown
    before.  A close by the remote side shows nothing of its own: the
    message stays as it was, and with no message the page reads
    "System Offline". *)
Theorem channel_loss_messages (K : option string) (R : Z) (s : App) :
  (forall err,
      let s' := step K R (OnError err) s in
      error s' = Some "Connection Error. Please try again." /\
      error_box s' = Some "Connection Error. Please try again." /\
      In (ConsoleError "Gemini Live Error:" err) (effects s')) /\
  (let s' := step K R OnClose s in
   error s' = error s /\
   (truthy (error s) = false ->
    error_box s' = None /\ offline_text s' = Some "System Offline")).
Proof.
  split.
  - intros err s'. subst s'. rewrite step_eq. cbn [after].
    split; [reflexivity|]. split; [reflexivity|].
    cbn. rewrite !in_app_iff. left; left; right; left; reflexivity.
  - intro s'. subst s'. rewrite step_eq. cbn [after].
    split; [reflexivity|]. intro H.
    unfold error_box, offline_text. cbn. rewrite H. split; reflexivity.
Qed.

(** ** Starting a session *)

(** X15.  With no API key (absent, or the empty string) a click on
    INITIALIZE creates no audio context and asks for no microphone: the
    calls it makes are [setError(null)], the log line, the setting of
    the message and the cleanup; no identifier is handed out; the
    component is idle and shows "API Key is missing.". *)
Theorem start_without_key (K : option string) (R : Z) (s : App)
    (ctorIn ctorOut : option JsError) :
  truthy K = false ->
  isConnected s = false ->
  let s' := step K R (ClickInitialize ctorIn ctorOut) s in
  effects s'
  = effects s
    ++ [SetError None;
        ConsoleError "Initialization Error:" (Error "API Key is missing.");
        SetError (Some "API Key is missing.")]
    ++ cleanup_calls s /\
  nextId s' = nextId s /\
  idle s' = true /\
  error s' = Some "API Key is missing." /\
  error_box s' = Some "API Key is missing.".
Proof.
  intros HK Hc s'. subst s'. rewrite step_eq. cbn [after after_stretch].
  rewrite Hc, HK.
  split; [|repeat split].
  cbn. rewrite <- !app_assoc. reflexivity.
Qed.

Lemma start_without_key_witness :
  error (step (Some "") sample_rate (ClickInitialize None None) initial)
  = Some "API Key is missing.".
Proof.
  destruct (start_without_key (Some "") sample_rate initial None None eq_refl eq_refl)
    as [_ [_ [_ [H _]]]].
  exact H.
Defined.

Lemma successful_start_eq (K : option string) (R : Z) (s : App)
    (stream : MediaStream) (processor : positive) (session : Session)
    (dataArray : list byte) :
  truthy K = true ->
  isConnected s = false ->
  run K R (successful_start stream processor session dataArray) s
  = adopted processor session dataArray
      (after K R OnOpen
         (chain_built stream (mkAudioContext (nextId s) R) (contexts_made R s))).
Proof.
  intros HK Hc. unfold run, successful_start; cbn [fold_left].
  rewrite !step_eq.
  assert (H1 : after K R (ClickInitialize None None) s = contexts_made R s).
  { cbn [after after_stretch]. rewrite Hc, HK. reflexivity. }
  rewrite H1.
  assert (H2 : after K R (StreamSettled (Resolved stream) None) (contexts_made R s)
               = chain_built stream (mkAudioContext (nextId s) R) (contexts_made R s))
    by reflexivity.
  rewrite H2. reflexivity.
Qed.

Lemma successful_start_fields (K : option string) (R : Z) (s : App)
    (stream : MediaStream) (processor : positive) (session : Session)
    (dataArray : list byte) :
  truthy K = true ->
  isConnected s = false ->
  let n := nextId s in
  let s' := run K R (successful_start stream processor session dataArray) s in
  isConnected s' = true /\ control s' = TERMINATE /\ error s' = None /\
  inputAudioContextRef s' = Some (mkAudioContext n R) /\
  outputAudioContextRef s' = Some (mkAudioContext (Pos.succ n) 24000) /\
  inputMediaStreamRef s' = Some stream /\
  inputSourceRef s' = Some (Pos.succ (Pos.succ n)) /\
  analyserRef s' = Some (Pos.succ (Pos.succ (Pos.succ n))) /\
  processorRef s' = Some (Pos.succ (Pos.succ (Pos.succ (Pos.succ n)))) /\
  aiSessionRef s' = Some session /\
  animationFrameRef s' = Some (Pos.succ (Pos.succ (Pos.succ (Pos.succ (Pos.succ n))))) /\
  volume s' = level dataArray /\
  nextStartTimeRef s' = nextStartTimeRef s.
Proof.
  intros HK Hc n s'. subst n s'. rewrite (successful_start_eq K R s _ _ _ _ HK Hc).
  repeat split.
Qed.

(** X16.  A start that meets no failure (a key, both contexts, the
    stream, the input chain, the channel opening, the connection
    resolving) leaves the component connected with TERMINATE on the
    page and no message, holding an input context at [PCM_SAMPLE_RATE],
    an output context at 24000, the stream, the three nodes of the input
    chain, the channel and a pending animation frame.  The cursor is
    not touched by a start. *)
Theorem successful_start_acquires (K : option string) (R : Z) (s : App)
    (stream : MediaStream) (processor : positive) (session : Session)
    (dataArray : list byte) :
  truthy K = true ->
  isConnected s = false ->
  let n := nextId s in
  let s' := run K R (successful_start stream processor session dataArray) s in
  isConnected s' = true /\ control s' = TERMINATE /\ error s' = None /\
  inputAudioContextRef s' = Some (mkAudioContext n R) /\
  outputAudioContextRef s' = Some (mkAudioContext (Pos.succ n) 24000) /\
  inputMediaStreamRef s' = Some stream /\
  inputSourceRef s' = Some (Pos.succ (Pos.succ n)) /\
  analyserRef s' = Some (Pos.succ (Pos.succ (Pos.succ n))) /\
  processorRef s' = Some (Pos.succ (Pos.succ (Pos.succ (Pos.succ n)))) /\
  aiSessionRef s' = Some session /\
  animationFrameRef s' = Some (Pos.succ (Pos.succ (Pos.succ (Pos.succ (Pos.succ n))))) /\
  volume s' = level dataArray /\
  nextStartTimeRef s' = nextStartTimeRef s.
Proof. exact (successful_start_fields K R s stream processor session dataArray). Qed.

Lemma successful_start_acquires_witness :
  isConnected (run sample_key sample_rate
                   (successful_start sample_stream 5 sample_session sample_bins)
                   initial) = true.
Proof.
  destruct (successful_start_acquires sample_key sample_rate initial
              sample_stream 5 sample_session sample_bins eq_refl eq_refl)
    as [H _].
  exact H.
Defined.

Lemma ending_releases_held (K : option string) (R : Z) (s1 : App) (e : Event)
    (session : Session) (stream : MediaStream) (inCtx outCtx : AudioContext)
    (source processor frame : positive) :
  aiSessionRef s1 = Some session ->
  inputMediaStreamRef s1 = Some stream ->
  processorRef s1 = Some processor ->
  inputSourceRef s1 = Some source ->
  inputAudioContextRef s1 = Some inCtx ->
  outputAudioContextRef s1 = Some outCtx ->
  animationFrameRef s1 = Some frame ->
  ends_session s1 e = true ->
  exists (before releases : list Effect),
    effects (step K R e s1) = effects s1 ++ before ++ releases /\
    releases
    = closing_calls (Some session)
      ++ map TrackStop (getTracks stream)
      ++ [NodeDisconnect processor; NodeDisconnect source;
          ContextClose (ctx_id inCtx); ContextClose (ctx_id outCtx);
          CancelAnimationFrame frame;
          SetIsConnected false; SetIsAiSpeaking false; SetVolume 0].
Proof.
  intros Hse Hms Hpr Hsrc Hic Hoc Hfr He.
  assert (Hcalls : cleanup_calls s1
                   = closing_calls (Some session)
                     ++ map TrackStop (getTracks stream)
                     ++ [NodeDisconnect processor; NodeDisconnect source;
                         ContextClose (ctx_id inCtx); ContextClose (ctx_id outCtx);
                         CancelAnimationFrame frame;
                         SetIsConnected false; SetIsAiSpeaking false; SetVolume 0]).
  { unfold cleanup_calls. rewrite Hic, Hoc, Hms, Hsrc, Hpr, Hse, Hfr. reflexivity. }
  rewrite <- Hcalls. clear Hcalls.
  rewrite step_eq.
  destruct e; try discriminate; cbn [ends_session] in He; cbn [after].
  - rewrite He. exists [], (cleanup_calls s1). split; reflexivity.
  - exists [], (cleanup_calls s1). split; reflexivity.
  - exists [ConsoleLog "Gemini Live Session Closed"], (cleanup_calls s1).
    split; [|reflexivity]. cbn. rewrite <- app_assoc. reflexivity.
  - exists [ConsoleError "Gemini Live Error:" err;
            SetError (Some "Connection Error. Please try again.")], (cleanup_calls s1).
    split; [|reflexivity]. cbn. rewrite <- !app_assoc. reflexivity.
Qed.

(** X17.  Start and stop balance: after a start that met no failure,
    any ending of the session closes the channel, stops every track of
    the stream, disconnects the processor and the source, closes both
    audio contexts and cancels the pending animation frame. *)
Theorem start_then_end_releases (K : option string) (R : Z) (s : App)
    (stream : MediaStream) (processor : positive) (session : Session)
    (dataArray : list byte) (e : Event) :
  truthy K = true ->
  isConnected s = false ->
  let n := nextId s in
  let s1 := run K R (successful_start stream processor session dataArray) s in
  ends_session s1 e = true ->
  exists (before releases : list Effect),
    effects (step K R e s1) = effects s1 ++ before ++ releases /\
    releases
    = closing_calls (Some session)
      ++ map TrackStop (getTracks stream)
      ++ [NodeDisconnect (Pos.succ (Pos.succ (Pos.succ (Pos.succ n))));
          NodeDisconnect (Pos.succ (Pos.succ n));
          ContextClose n;
          ContextClose (Pos.succ n);
          CancelAnimationFrame (Pos.succ (Pos.succ (Pos.succ (Pos.succ (Pos.succ n)))));
          SetIsConnected false; SetIsAiSpeaking false; SetVolume 0].
Proof.
  intros HK Hc.
  destruct (successful_start_fields K R s stream processor session dataArray HK Hc)
    as [_ [_ [_ [Hic [Hoc [Hms [Hsrc [_ [Hpr [Hse [Hfr _]]]]]]]]]]].
  intros n s1 He.
  exact (ending_releases_held K R s1 e session stream _ _ _ _ _
           Hse Hms Hpr Hsrc Hic Hoc Hfr He).
Qed.

Lemma start_then_end_releases_witness :
  exists (before releases : list Effect),
    effects (step sample_key sample_rate Unmount
               (run sample_key sample_rate
                    (successful_start sample_stream 5 sample_session sample_bins) initial))
    = effects (run sample_key sample_rate
                   (successful_start sample_stream 5 sample_session sample_bins) initial)
      ++ before ++ releases /\
    releases
    = closing_calls (Some sample_session)
      ++ map TrackStop (getTracks sample_stream)
      ++ [NodeDisconnect 5; NodeDisconnect 3; ContextClose 1; ContextClose 2;
          CancelAnimationFrame 6;
          SetIsConnected false; SetIsAiSpeaking false; SetVolume 0].
Proof.
  exact (start_then_end_releases sample_key sample_rate initial
           sample_stream 5 sample_session sample_bins Unmount
           eq_refl eq_refl eq_refl).
Defined.

(** ** Promises that settle after the attempt is over *)

(** X18.  A microphone stream that arrives when the input context is
    gone (the attempt was cleaned up while the permission prompt was
    open) is not kept: the attempt throws on the null context, every
    track of the stream is stopped, no node is created and no connection
    is asked for, and the component ends idle with a message. *)
Theorem late_stream_is_stopped (K : option string) (R : Z) (s : App)
    (stream : MediaStream) (graph : option JsError) :
  inputAudioContextRef s = None ->
  let s' := step K R (StreamSettled (Resolved stream) graph) s in
  (exists m before later,
      m <> "" /\
      effects s' = effects s ++ before ++ map TrackStop (getTracks stream) ++ later /\
      before ++ later
      = [ConsoleError "Initialization Error:" (Error m); SetError (Some m)]
        ++ closing_calls (aiSessionRef s)
        ++ release_calls (fun n => [NodeDisconnect n]) (processorRef s)
        ++ release_calls (fun n => [NodeDisconnect n]) (inputSourceRef s)
        ++ release_calls (fun c => [ContextClose (ctx_id c)]) (outputAudioContextRef s)
        ++ release_calls (fun h => [CancelAnimationFrame h]) (animationFrameRef s)
        ++ [SetIsConnected false; SetIsAiSpeaking false; SetVolume 0]) /\
  inputMediaStreamRef s' = None /\
  idle s' = true /\
  nextId s' = nextId s /\
  exists m, error s' = Some m /\ m <> "".
Proof.
  intros Hctx s'. subst s'. rewrite step_eq. cbn [after after_stretch]. rewrite Hctx.
  split; [|repeat split; eexists; split; [reflexivity|discriminate]].
  exists "Cannot read properties of null (reading 'createMediaStreamSource')".
  exists ([ConsoleError "Initialization Error:"
             (Error "Cannot read properties of null (reading 'createMediaStreamSource')");
           SetError (Some "Cannot read properties of null (reading 'createMediaStreamSource')")]
          ++ closing_calls (aiSessionRef s)),
         (release_calls (fun n => [NodeDisconnect n]) (processorRef s)
          ++ release_calls (fun n => [NodeDisconnect n]) (inputSourceRef s)
          ++ release_calls (fun c => [ContextClose (ctx_id c)]) (outputAudioContextRef s)
          ++ release_calls (fun h => [CancelAnimationFrame h]) (animationFrameRef s)
          ++ [SetIsConnected false; SetIsAiSpeaking false; SetVolume 0]).
  split; [discriminate|]. split.
  - unfold caught, stopped, cleanup_calls, called.
    cbn [effects with_effects with_error with_inputMediaStreamRef aiSessionRef
         inputMediaStreamRef processorRef inputSourceRef inputAudioContextRef
         outputAudioContextRef animationFrameRef message Error or_else release_calls].
    rewrite Hctx. cbn [release_calls].
    repeat rewrite <- app_assoc. reflexivity.
  - repeat rewrite <- app_assoc. reflexivity.
Qed.

Lemma late_stream_is_stopped_witness :
  idle (step sample_key sample_rate (StreamSettled (Resolved sample_stream) None)
             (run sample_key sample_rate [Unmount] connecting)) = true.
Proof.
  destruct (late_stream_is_stopped sample_key sample_rate
              (run sample_key sample_rate [Unmount] connecting)
              sample_stream None eq_refl) as [_ [_ [H _]]].
  exact H.
Defined.

(** X19.  A connection that resolves is adopted whatever happened in the
    meantime: the channel is kept, the capture callback is installed and
    the meter loop is started, with no check of the state.  After a
    cleanup this leaves the channel and an animation frame held while
    the component still reads as disconnected. *)
Theorem late_session_is_adopted (K : option string) (R : Z) (s : App)
    (processor : positive) (session : Session) (dataArray : list byte) :
  let s' := step K R (SessionSettled processor (Resolved session) dataArray) s in
  aiSessionRef s' = Some session /\
  animationFrameRef s' = Some (nextId s) /\
  In (SetOnAudioProcess processor) (effects s') /\
  In (RequestAnimationFrame (nextId s)) (effects s') /\
  isConnected s' = isConnected s /\
  error s' = error s /\
  (idle s = true -> idle s' = false /\ control s' = INITIALIZE).
Proof.
  intro s'. subst s'. rewrite step_eq. cbn [after after_stretch].
  unfold adopted, metered. cbn [analyserRef called with_effects with_aiSessionRef].
  destruct (analyserRef s); unfold idle, held, control; cbn -[level];
    (split; [reflexivity|]); (split; [reflexivity|]);
    (split; [rewrite !in_app_iff; cbn; auto 6|]);
    (split; [rewrite !in_app_iff; cbn; auto 6|]);
    (split; [reflexivity|]); (split; [reflexivity|]);
    intro Hidle; apply andb_true_iff in Hidle as [Hc _];
    rewrite Hc; split; reflexivity.
Qed.

(** ** Messages and meter runs that do nothing *)

(** X20.  Only the first part of a message is looked at.  A message
    whose first part carries no inline data, or whose data is the empty
    string, changes nothing at all, whatever its other parts carry and
    whether or not it marks the turn complete; so does a message with no
    content, no model turn or no parts. *)
Theorem only_first_part_is_played (K : option string) (R : Z) (s : App) :
  (forall first rest tc,
      truthy (match inlineData first with
              | Some inline => data inline
              | None => None
              end) = false ->
      step K R (OnMessage
                  (mkMessage (Some (mkServerContent
                     (Some (mkContent (Some (first :: rest)))) tc)))) s = s) /\
  (forall tc,
      step K R (OnMessage (mkMessage (Some (mkServerContent
                  (Some (mkContent (Some []))) tc)))) s = s /\
      step K R (OnMessage (mkMessage (Some (mkServerContent
                  (Some (mkContent None)) tc)))) s = s /\
      step K R (OnMessage (mkMessage (Some (mkServerContent None tc)))) s = s) /\
  step K R (OnMessage (mkMessage None)) s = s.
Proof.
  split; [|split; [intro tc; repeat split|reflexivity]].
  intros first rest tc H. rewrite step_eq. cbn [after].
  unfold base64Audio; cbn [serverContent modelTurn parts].
  destruct (inlineData first); rewrite H; reflexivity.
Qed.

(** X21.  Every meter run re-arms the loop: it asks for the next
    animation frame and keeps its handle, whether or not there is an
    analyser.  Without an analyser it calls no setter and leaves the
    volume as it was. *)
Theorem meter_always_rearms (dataArray : list byte) (s : App) :
  exists s',
    updateVolume dataArray s = Returned tt s' /\
    animationFrameRef s' = Some (nextId s) /\
    held s' = true /\
    (analyserRef s = None ->
     effects s' = effects s ++ [RequestAnimationFrame (nextId s)] /\
     volume s' = volume s).
Proof.
  exists (metered dataArray s). split; [apply updateVolume_eq|].
  unfold metered, held.
  cbn [animationFrameRef with_animationFrameRef is_some].
  split; [reflexivity|]. split; [apply orb_true_r|].
  intros ->. split; reflexivity.
Qed.

(** ** Audio contexts that are replaced *)

Lemma cleanup_calls_closes (s : App) (x : positive) :
  In (ContextClose x) (cleanup_calls s) -> references s x.
Proof.
  unfold cleanup_calls, closing_calls, release_calls, references.
  rewrite !in_app_iff.
  destruct (aiSessionRef s) as [[sid [e|]]|], (inputMediaStreamRef s),
    (processorRef s), (inputSourceRef s), (inputAudioContextRef s),
    (outputAudioContextRef s), (animationFrameRef s);
    cbn; rewrite ?in_map_iff;
    intuition (try discriminate);
    repeat match goal with
           | H : exists _, _ |- _ => destruct H as [? [? ?]]
           | H : ContextClose _ = ContextClose _ |- _ => injection H as H
           end;
    try discriminate; eauto.
Qed.

Lemma effects_caught (err : JsError) (s : App) :
  exists before,
    effects (caught err s) = effects s ++ before ++ cleanup_calls s /\
    forall x, ~ In (ContextClose x) before.
Proof.
  exists [ConsoleError "Initialization Error:" err;
          SetError (Some (or_else (message err) "Failed to initialize."))].
  split.
  - unfold caught, stopped, called. cbn. rewrite <- !app_assoc. reflexivity.
  - intros x [H|[H|[]]]; discriminate.
Qed.

(** One event closes a context only if the component references it, or
    if the event created it. *)
Lemma after_closes (K : option string) (R : Z) (e : Event) (s : App) :
  exists calls,
    effects (after K R e s) = effects s ++ calls /\
    forall x, In (ContextClose x) calls ->
              references s x \/ (nextId s <= x)%positive.
Proof.
  assert (Hstop : forall s0 before,
             effects s0 = effects s ++ before ->
             (forall x, ~ In (ContextClose x) before) ->
             (forall x, references s0 x -> references s x \/ (nextId s <= x)%positive) ->
             exists calls,
               effects (stopped s0) = effects s ++ calls /\
               forall x, In (ContextClose x) calls ->
                         references s x \/ (nextId s <= x)%positive).
  { intros s0 before Heff Hbefore Href.
    exists (before ++ cleanup_calls s0). split.
    - cbn [stopped effects]. rewrite Heff, <- app_assoc. reflexivity.
    - intros x Hin. apply in_app_iff in Hin as [Hin|Hin].
      + contradiction (Hbefore x).
      + apply Href, cleanup_calls_closes, Hin. }
  assert (Hcaught : forall err s0 before,
             effects s0 = effects s ++ before ->
             (forall x, ~ In (ContextClose x) before) ->
             (forall x, references s0 x -> references s x \/ (nextId s <= x)%positive) ->
             exists calls,
               effects (caught err s0) = effects s ++ calls /\
               forall x, In (ContextClose x) calls ->
                         references s x \/ (nextId s <= x)%positive).
  { intros err s0 before Heff Hbefore Href.
    destruct (effects_caught err s0) as [mid [Hmid Hno]].
    exists (before ++ mid ++ cleanup_calls s0). split.
    - rewrite Hmid, Heff, <- !app_assoc. reflexivity.
    - intros x Hin. rewrite !in_app_iff in Hin. destruct Hin as [Hin|[Hin|Hin]].
      + contradiction (Hbefore x).
      + contradiction (Hno x).
      + apply Href, cleanup_calls_closes, Hin. }
  assert (Hnone : forall calls,
             (forall x, ~ In (ContextClose x) calls) ->
             forall s', effects s' = effects s ++ calls ->
             exists calls,
               effects s' = effects s ++ calls /\
               forall x, In (ContextClose x) calls ->
                         references s x \/ (nextId s <= x)%positive).
  { intros calls Hno s' Hs'. exists calls. split; [exact Hs'|].
    intros x Hin. contradiction (Hno x). }
  assert (Hnil : effects s = effects s ++ []) by (rewrite app_nil_r; reflexivity).
  assert (Hno_nil : forall x, ~ In (ContextClose x) []) by (intros x []).
  destruct e as [ctorIn ctorOut| | |settled graph|processor settled dataArray
                | |session|msg|outputCtx audioBuffer currentTime|currentTime
                | |err|dataArray|session];
    cbn [after after_stretch].
  - (* INITIALIZE *)
    destruct (isConnected s); [apply (Hnone [] Hno_nil), Hnil|].
    destruct (truthy K); [destruct ctorIn as [e|]; [|destruct ctorOut as [e|]]|].
    + apply (Hcaught e _ [SetError None]); [reflexivity| |auto].
      intros x [H|[]]; discriminate.
    + apply (Hcaught e _ [SetError None; NewAudioContext (nextId s) R]).
      * cbn. rewrite <- ?app_assoc. reflexivity.
      * intros x [H|[H|[]]]; discriminate.
      * intros x [[c [Hc Hx]]|[c [Hc Hx]]].
        -- cbn in Hc. injection Hc as <-. cbn in Hx. subst x. right. lia.
        -- left. right. exists c. split; assumption.
    + apply (Hnone [SetError None; NewAudioContext (nextId s) R;
                    NewAudioContext (Pos.succ (nextId s)) 24000; GetUserMedia]).
      * intros x [H|[H|[H|[H|[]]]]]; discriminate.
      * cbn. rewrite <- ?app_assoc. reflexivity.
    + apply (Hcaught _ _ [SetError None]); [reflexivity| |auto].
      intros x [H|[]]; discriminate.
  - destruct (isConnected s); [|apply (Hnone [] Hno_nil), Hnil].
    apply (Hstop s []); auto.
  - apply (Hstop s []); auto.
  - (* getUserMedia settled *)
    destruct settled as [stream|e];
      [destruct (inputAudioContextRef s) as [inputCtx|] eqn:Hctx;
       [destruct graph as [e|]|]|].
    + apply (Hcaught e _ []); auto.
    + eapply Hnone; [|unfold chain_built, called; cbn; rewrite <- ?app_assoc; reflexivity].
      intros x Hin; cbn in Hin.
      repeat (destruct Hin as [Hin|Hin]; [discriminate|]). exact Hin.
    + apply (Hcaught _ _ []); auto.
    + apply (Hcaught e _ []); auto.
  - (* connection settled *)
    destruct settled as [session|e]; [|apply (Hcaught e _ []); auto].
    unfold adopted, metered. cbn [analyserRef called with_effects with_aiSessionRef].
    destruct (analyserRef s);
      (eapply Hnone; [|cbn -[level]; rewrite <- ?app_assoc; reflexivity]);
      intros x Hin; cbn in Hin;
      repeat (destruct Hin as [Hin|Hin]; [discriminate|]); exact Hin.
  - eapply Hnone; [|cbn; rewrite <- ?app_assoc; reflexivity].
    intros x [H|[H|[]]]; discriminate.
  - eapply Hnone; [|reflexivity]. intros x [H|[]]; discriminate.
  - destruct (truthy (base64Audio msg)); [|apply (Hnone [] Hno_nil), Hnil].
    eapply Hnone; [|reflexivity]. intros x [H|[]]; discriminate.
  - destruct audioBuffer; [|apply (Hnone [] Hno_nil), Hnil].
    eapply Hnone; [|reflexivity].
    intros x Hin; cbn in Hin.
    repeat (destruct Hin as [Hin|Hin]; [discriminate|]). exact Hin.
  - destruct (Qle_bool _ _); [|apply (Hnone [] Hno_nil), Hnil].
    eapply Hnone; [|reflexivity]. intros x [H|[]]; discriminate.
  - apply (Hstop _ [ConsoleLog "Gemini Live Session Closed"]); [reflexivity| |auto].
    intros x [H|[]]; discriminate.
  - apply (Hstop _ [ConsoleError "Gemini Live Error:" err;
                    SetError (Some "Connection Error. Please try again.")]).
    + cbn. rewrite <- ?app_assoc. reflexivity.
    + intros x [H|[H|[]]]; discriminate.
    + auto.
  - unfold metered.
    destruct (analyserRef s);
      (eapply Hnone; [|cbn -[level]; rewrite <- ?app_assoc; reflexivity]);
      intros x Hin; cbn in Hin;
      repeat (destruct Hin as [Hin|Hin]; [discriminate|]); exact Hin.
  - eapply Hnone; [|reflexivity]. intros x [H|[]]; discriminate.
Qed.

(** One event references only contexts that were referenced before it or
    that it created, and never hands an identifier out twice. *)
Lemma after_references (K : option string) (R : Z) (e : Event) (s : App) :
  (nextId s <= nextId (after K R e s))%positive /\
  forall x, references (after K R e s) x ->
            references s x \/ (nextId s <= x)%positive.
Proof.
  unfold references.
  destruct e as [ctorIn ctorOut| | |settled graph|processor settled dataArray
                | |session|msg|outputCtx audioBuffer currentTime|currentTime
                | |err|dataArray|session];
    cbn [after after_stretch].
  all: repeat match goal with
       | |- context [if ?b then _ else _] => destruct b
       | |- context [match ?o with Some _ => _ | None => _ end] => destruct o eqn:?
       | |- context [match ?o with Resolved _ => _ | Rejected _ => _ end] => destruct o
       end;
       unfold adopted, metered;
       cbn [analyserRef called with_effects with_aiSessionRef];
       try (destruct (analyserRef s));
       cbn -[level Pos.succ Pos.le];
       (split; [lia|]);
       intros x [[c [Hc Hx]]|[c [Hc Hx]]];
       try discriminate;
       try (injection Hc as <-; cbn in Hx; subst x; right; lia);
       try (left; left; exists c; split; [congruence|assumption]);
       try (left; right; exists c; split; [congruence|assumption]).
Qed.

Lemma run_never_closes (K : option string) (R : Z) (x : positive)
    (es : list Event) (s : App) :
  (x < nextId s)%positive -> ~ references s x ->
  exists calls,
    effects (run K R es s) = effects s ++ calls /\
    ~ In (ContextClose x) calls /\
    ~ references (run K R es s) x.
Proof.
  revert s; induction es as [|e es IH]; intros s Hx Href.
  - exists []. rewrite app_nil_r. repeat split; auto.
  - change (run K R (e :: es) s) with (run K R es (step K R e s)).
    rewrite step_eq.
    destruct (after_closes K R e s) as [calls [Hcalls Hclose]].
    destruct (after_references K R e s) as [Hnext Hrefs].
    destruct (IH (after K R e s)) as [calls' [Hcalls' [Hno Href']]].
    + lia.
    + intro H. destruct (Hrefs x H) as [H'|H']; [contradiction|lia].
    + exists (calls ++ calls'). split; [|split].
      * rewrite Hcalls', Hcalls, <- app_assoc. reflexivity.
      * intro Hin. apply in_app_iff in Hin as [Hin|Hin]; [|contradiction].
        destruct (Hclose x Hin) as [H'|H']; [contradiction|lia].
      * exact Href'.
Qed.

(** X22.  A start never closes what the references held.  When a click on
    INITIALIZE is accepted while an audio context is referenced (a first
    attempt still connecting) and both constructors succeed, both
    references are overwritten with new contexts, and the context that
    was referenced before is never closed and never referenced again,
    whatever events follow. *)
Theorem replaced_context_never_closed (K : option string) (R : Z) (s : App)
    (c : AudioContext) (es : list Event) :
  truthy K = true ->
  isConnected s = false ->
  inputAudioContextRef s = Some c \/ outputAudioContextRef s = Some c ->
  (ctx_id c < nextId s)%positive ->
  let s1 := step K R (ClickInitialize None None) s in
  inputAudioContextRef s1 = Some (mkAudioContext (nextId s) R) /\
  outputAudioContextRef s1 = Some (mkAudioContext (Pos.succ (nextId s)) 24000) /\
  exists calls,
    effects (run K R es s1) = effects s ++ calls /\
    ~ In (ContextClose (ctx_id c)) calls /\
    ~ references (run K R es s1) (ctx_id c).
Proof.
  intros HK Hc Hheld Hid s1.
  assert (Hs1 : s1 = contexts_made R s).
  { subst s1. rewrite step_eq. cbn [after after_stretch]. rewrite Hc, HK. reflexivity. }
  rewrite Hs1. clear s1 Hs1.
  split; [reflexivity|]. split; [reflexivity|].
  destruct (run_never_closes K R (ctx_id c) es (contexts_made R s))
    as [calls [Hcalls [Hno Href]]].
  - cbn. lia.
  - unfold references. cbn.
    intros [[c' [Hc' Hx]]|[c' [Hc' Hx]]]; injection Hc' as <-; cbn in Hx; lia.
  - exists ([SetError None; NewAudioContext (nextId s) R;
             NewAudioContext (Pos.succ (nextId s)) 24000; GetUserMedia] ++ calls).
    split; [|split].
    + rewrite Hcalls. cbn. rewrite <- ?app_assoc. reflexivity.
    + intro Hin. apply in_app_iff in Hin as [Hin|Hin]; [|contradiction].
      cbn in Hin. repeat (destruct Hin as [Hin|Hin]; [discriminate|]). exact Hin.
    + exact Href.
Qed.

Lemma replaced_context_never_closed_witness :
  exists calls,
    effects (run sample_key sample_rate
                 [StreamSettled (Resolved sample_stream) None; OnOpen;
                  SessionSettled 7 (Resolved sample_session) sample_bins;
                  ClickTerminate; Unmount]
                 (step sample_key sample_rate (ClickInitialize None None) connecting))
    = effects connecting ++ calls /\
    ~ In (ContextClose 1) calls /\
    ~ references
        (run sample_key sample_rate
             [StreamSettled (Resolved sample_stream) None; OnOpen;
              SessionSettled 7 (Resolved sample_session) sample_bins;
              ClickTerminate; Unmount]
             (step sample_key sample_rate (ClickInitialize None None) connecting))
        1.
Proof.
  destruct (replaced_context_never_closed sample_key sample_rate connecting
              (mkAudioContext 1 sample_rate)
              [StreamSettled (Resolved sample_stream) None; OnOpen;
               SessionSettled 7 (Resolved sample_session) sample_bins;
               ClickTerminate; Unmount])
    as [_ [_ H]].
  - reflexivity.
  - vm_compute; reflexivity.
  - left; vm_compute; reflexivity.
  - vm_compute; reflexivity.
  - exact H.
Defined.
